(** * ClarifAI: the hybrid extraction engine of [main.py]

    A shallow embedding of [MaterialTextProcessor] (text normalisation,
    heuristic extraction, the retrying call to the text-generation service,
    the fallback builder, the 40-character description and the batch loop),
    and the properties of the design document checked against it.

    - Python strings are sequences of Unicode code points; they are
      modelled as lists of code points, so that [len], slicing and
      [startswith] count what Python counts.
    - The values of the generative path are dynamically typed: the parsed
      reply is a [pyval], and the operations on it raise what Python
      raises.
    - A method of the processor is a function of the state that returns or
      raises; [try]/[except] is a combinator.
    - What the program does not define is a parameter: [str.lower], the
      service behind [chat] (the outcome of each call of a run),
      [json.loads] and [str] of an exception. Logging, printing and the
      reading and writing of the tables are left out. *)

From Stdlib Require Import String Ascii List NArith ZArith Lia Bool Arith.
Import ListNotations.

(** ** Python strings *)

Definition cp := N.
Definition pystr := list cp.

(** Decoding of a UTF-8 literal of this file into code points; only used to
    write the string constants of the source. *)
Fixpoint utf8_decode (bs : list N) : pystr :=
  match bs with
  | [] => []
  | b0 :: r0 =>
    if (b0 <? 128)%N then b0 :: utf8_decode r0
    else match r0 with
    | [] => [b0]
    | b1 :: r1 =>
      if (b0 <? 224)%N then ((b0 - 192) * 64 + (b1 - 128))%N :: utf8_decode r1
      else match r1 with
      | [] => [b0; b1]
      | b2 :: r2 =>
        if (b0 <? 240)%N
        then ((b0 - 224) * 4096 + (b1 - 128) * 64 + (b2 - 128))%N :: utf8_decode r2
        else match r2 with
        | [] => [b0; b1; b2]
        | b3 :: r3 =>
          ((b0 - 240) * 262144 + (b1 - 128) * 4096 + (b2 - 128) * 64 + (b3 - 128))%N
          :: utf8_decode r3
        end
      end
    end
  end.

Definition py (s : string) : pystr :=
  utf8_decode (map N_of_ascii (list_ascii_of_string s)).

Definition pystr_eq_dec : forall a b : pystr, {a = b} + {a <> b} :=
  list_eq_dec N.eq_dec.

Definition pystr_eqb (a b : pystr) : bool :=
  if pystr_eq_dec a b then true else false.

Definition SPACE : cp := 32%N.
Definition PIPE : cp := 124%N.
Definition SLASH : cp := 47%N.

(** [str.isspace] of one code point: the characters [str.split()],
    [str.strip()] and the pattern [\s] of [re] treat as whitespace. *)
Definition is_space (c : cp) : bool :=
  ((9 <=? c) && (c <=? 13) || (28 <=? c) && (c <=? 32)
   || (c =? 133) || (c =? 160) || (c =? 5760)
   || (8192 <=? c) && (c <=? 8202)
   || (c =? 8232) || (c =? 8233) || (c =? 8239) || (c =? 8287)
   || (c =? 12288))%N.

(** Leading part of [s] satisfying [p] removed. *)
Fixpoint drop_while (p : cp -> bool) (s : pystr) : pystr :=
  match s with
  | [] => []
  | c :: s' => if p c then drop_while p s' else s
  end.

Definition lstrip (s : pystr) : pystr := drop_while is_space s.
Definition rstrip (s : pystr) : pystr := rev (drop_while is_space (rev s)).

(** [s.strip()] *)
Definition strip (s : pystr) : pystr := rstrip (lstrip s).

(** [s.split()]: the maximal runs of non-whitespace, in order. [cur] is the
    token being read, reversed. *)
Fixpoint split_ws_aux (cur : pystr) (s : pystr) : list pystr :=
  match s with
  | [] => match cur with [] => [] | _ => [rev cur] end
  | c :: s' =>
    if is_space c
    then match cur with
         | [] => split_ws_aux [] s'
         | _ => rev cur :: split_ws_aux [] s'
         end
    else split_ws_aux (c :: cur) s'
  end.

Definition split_ws (s : pystr) : list pystr := split_ws_aux [] s.

(** [sep.join(l)] *)
Fixpoint join (sep : pystr) (l : list pystr) : pystr :=
  match l with
  | [] => []
  | x :: l' => match l' with [] => x | _ => x ++ sep ++ join sep l' end
  end.

(** [s.split(c)] for a one-character separator: never empty. *)
Fixpoint split_on (c : cp) (s : pystr) : list pystr :=
  match s with
  | [] => [[]]
  | x :: s' =>
    if (x =? c)%N then [] :: split_on c s'
    else match split_on c s' with
         | [] => [[x]]
         | seg :: rest => (x :: seg) :: rest
         end
  end.

(** [s.startswith(p)] *)
Fixpoint starts_with (p s : pystr) : bool :=
  match p, s with
  | [], _ => true
  | _ :: _, [] => false
  | a :: p', b :: s' => (a =? b)%N && starts_with p' s'
  end.

(** [kw in s] *)
Fixpoint contains (kw s : pystr) : bool :=
  starts_with kw s || match s with [] => false | _ :: s' => contains kw s' end.

(** [s[:n]] and [s[a:b]] for [0 <= a]; a negative [n] counts from the end. *)
Definition slice_to {A} (n : Z) (s : list A) : list A :=
  if (0 <=? n)%Z then firstn (Z.to_nat n) s
  else firstn (length s - Z.to_nat (- n)) s.

Definition slice {A} (a b : Z) (s : list A) : list A :=
  skipn (Z.to_nat a) (slice_to b s).

(** [s.find(c)] and [s.rfind(c)]: the index of the first and of the last
    occurrence of [c], [-1] when there is none. *)
Fixpoint find_from (c : cp) (i : Z) (s : pystr) : Z :=
  match s with
  | [] => (-1)%Z
  | x :: s' => if (x =? c)%N then i else find_from c (i + 1)%Z s'
  end.

Fixpoint rfind_from (c : cp) (i last : Z) (s : pystr) : Z :=
  match s with
  | [] => last
  | x :: s' => rfind_from c (i + 1)%Z (if (x =? c)%N then i else last) s'
  end.

Definition find (c : cp) (s : pystr) : Z := find_from c 0%Z s.
Definition rfind (c : cp) (s : pystr) : Z := rfind_from c 0%Z (-1)%Z s.

(** [str.lower] on text of ASCII and Latin-1 letters: [A-Z] and the
    accented capitals U+00C0..U+00DE (the multiplication sign U+00D7
    apart) go to the letter 32 places up. The extractors are stated for an
    arbitrary [lower]; this one instantiates them on German text. *)
Definition lower_cp (c : cp) : cp :=
  if ((65 <=? c) && (c <=? 90)
      || (192 <=? c) && (c <=? 222) && negb (c =? 215))%N
  then (c + 32)%N else c.

Definition lower_latin1 (s : pystr) : pystr := map lower_cp s.

(** ** Python values

    The values the program handles: what [json.loads] returns, and the
    dictionaries and strings the extractors build. A float is kept as its
    IEEE-754 binary64 bit pattern; a dictionary keeps its insertion order. *)
#[local] Set Warnings "-register-all".
Inductive pyval : Type :=
  | PyNone
  | PyBool (b : bool)
  | PyInt (z : Z)
  | PyFloat (bits : Z)
  | PyStr (s : pystr)
  | PyList (l : list pyval)
  | PyDict (d : list (pystr * pyval)).

(** ** Substitution of the non-overlapping matches, left to right

    [str.replace] and [re.sub] share one scan: at each position, if the
    pattern matches there the replacement is written and the scan goes on
    after the match, otherwise the character is copied. A [matcher] gives
    the text left after a match anchored at the start of its argument. *)
Definition matcher := pystr -> option pystr.

Fixpoint sub_fuel (m : matcher) (repl : pystr) (fuel : nat) (s : pystr) : pystr :=
  match fuel with
  | O => s
  | S fuel' =>
    match s with
    | [] => []
    | c :: s' =>
      match m s with
      | Some rest => repl ++ sub_fuel m repl fuel' rest
      | None => c :: sub_fuel m repl fuel' s'
      end
    end
  end.

Definition sub (m : matcher) (repl : pystr) (s : pystr) : pystr :=
  sub_fuel m repl (length s) s.

(** The literal pattern of [s.replace(old, new)]. *)
Definition m_lit (old : pystr) : matcher := fun s =>
  if starts_with old s then Some (skipn (length old) s) else None.

(** The pattern [\s+]: greedy, so the whole run of whitespace. *)
Definition m_ws : matcher := fun s =>
  match s with
  | c :: s' => if is_space c then Some (drop_while is_space s') else None
  | [] => None
  end.

(** The pattern [\s+\|\s+]. The first [\s+] takes the whole run: a shorter
    one is followed by whitespace, never by the pipe, so backtracking finds
    nothing more. *)
Definition m_sep : matcher := fun s =>
  match m_ws s with
  | Some (c :: r) => if (c =? PIPE)%N then m_ws r else None
  | _ => None
  end.

Definition DSLASH : pystr := [SLASH; SLASH].
Definition SEP : pystr := [SPACE; PIPE; SPACE].

(** [_preprocess_text]: clean and standardize input text. *)
Definition _preprocess_text (text : pyval) : pystr :=
  match text with
  | PyStr text =>
    let text := join [SPACE] (split_ws text) in
    let text := sub (m_lit DSLASH) SEP text in
    let text := sub m_sep SEP text in
    let text := sub m_ws [SPACE] text in
    strip text
  | _ => []
  end.

(** ** The structured extraction result *)

Record ProductInfo := {
  product_name : pystr;
  characteristics : list pystr;
  material_type : pystr;
  unit_of_measure : pystr;
  categorization : list (pystr * pyval);
  short_description : pystr
}.

Definition K_product_name : pystr := Eval cbv in py "product_name".
Definition K_characteristics : pystr := Eval cbv in py "characteristics".
Definition K_material_type : pystr := Eval cbv in py "material_type".
Definition K_unit_of_measure : pystr := Eval cbv in py "unit_of_measure".
Definition K_categorization : pystr := Eval cbv in py "categorization".
Definition K_short_description : pystr := Eval cbv in py "short_description".

(** The dictionary the extractors return, keys in the order written. *)
Definition to_dict (p : ProductInfo) : pyval :=
  PyDict [ (K_product_name, PyStr (product_name p));
           (K_characteristics, PyList (map PyStr (characteristics p)));
           (K_material_type, PyStr (material_type p));
           (K_unit_of_measure, PyStr (unit_of_measure p));
           (K_categorization, PyDict (categorization p));
           (K_short_description, PyStr (short_description p)) ].

Definition FUER : pystr := Eval cbv in py "für ".
Definition OTHER : pystr := Eval cbv in py "other".
Definition ST : pystr := Eval cbv in py "ST".

(** [type_keywords], in the insertion order the loop iterates it. *)
Definition type_keywords : list (pystr * list pystr) := Eval cbv in
  [ (py "filter", [py "filter"; py "wasserfilter"]);
    (py "electrical", [py "schütz"; py "relais"; py "spannung"; py "leistung"]);
    (py "mechanical", [py "lager"; py "welle"; py "ring"; py "buchse"]);
    (py "seal", [py "dicht"; py "dichtung"]) ].

(** [[p.strip() for p in text.split('|') if p.strip()]] *)
Definition pipe_parts (text : pystr) : list pystr :=
  filter (fun p => negb (pystr_eqb p []))
         (map strip (split_on PIPE text)).

(** The loop over [type_keywords.items()] with its [break]. *)
Fixpoint scan_types (table : list (pystr * list pystr)) (low : pystr) : pystr :=
  match table with
  | [] => OTHER
  | (type_name, keywords) :: table' =>
    if existsb (fun kw => contains kw low) keywords then type_name
    else scan_types table' low
  end.

Definition len (s : pystr) : Z := Z.of_nat (length s).

Section Extractors.

(** [str.lower], a builtin of the interpreter. *)
Variable lower : pystr -> pystr.

(** The name taken from the first part, [für ] removed. *)
Definition name_of (part0 : pystr) : pystr :=
  if starts_with FUER (lower part0) then strip (skipn 4 part0) else part0.

(** [_create_fallback_info]: create a more intelligent fallback. *)
Definition _create_fallback_info (text : pystr) : ProductInfo :=
  match pipe_parts text with
  | [] =>
    {| product_name := []; characteristics := []; material_type := OTHER;
       unit_of_measure := ST; categorization := []; short_description := [] |}
  | part0 :: rest =>
    let name := name_of part0 in
    let short_desc :=
      match rest with
      | part1 :: _ =>
        if (len name + len part1 + 1 <=? 40)%Z
        then name ++ [SPACE] ++ part1 else name
      | [] => name
      end in
    let short_desc := slice_to 40 short_desc in
    {| product_name := name; characteristics := rest; material_type := OTHER;
       unit_of_measure := ST; categorization := [];
       short_description := short_desc |}
  end.

(** The short description [_simple_extraction] builds from the name and
    the characteristics. *)
Definition simple_short_desc (product_name : pystr) (characteristics : list pystr)
  : pystr :=
  let short_desc := product_name in
  let short_desc :=
    match characteristics with
    | [] => short_desc
    | char0 :: _ =>
      if (len short_desc + 1 + len char0 <=? 40)%Z
      then short_desc ++ [SPACE] ++ char0
      else
        let remaining_space := (40 - len short_desc - 1)%Z in
        if (remaining_space >? 3)%Z
        then short_desc ++ [SPACE] ++ slice_to remaining_space char0
        else short_desc
    end in
  slice_to 40 short_desc.

(** [_simple_extraction]: try to extract information without LLM. The
    string operations of its body raise nothing, so its [except] branch is
    never taken. *)
Definition _simple_extraction (text : pystr) : ProductInfo :=
  match pipe_parts text with
  | [] => _create_fallback_info text
  | part0 :: rest =>
    let product_name := name_of part0 in
    let characteristics := rest in
    let material_type := scan_types type_keywords (lower text) in
    {| product_name := product_name; characteristics := characteristics;
       material_type := material_type; unit_of_measure := ST;
       categorization := [];
       short_description := simple_short_desc product_name characteristics |}
  end.

End Extractors.

(** ** Exceptions, results and the processor's state *)

(** The operation a [TypeError] comes from. *)
Inductive pyop := OpLen | OpConcat | OpIAdd | OpIndex | OpSlice.

Inductive pyexn :=
  | ConnectionError
  | ServiceError
  | ValueError (msg : pystr)
  | JSONDecodeError
  | AttributeError
  | RuntimeError (msg : pystr)
  | KeyError (key : pyval)
  | IndexError
  | TypeError (op : pyop) (operand : pyval).

Inductive outcome (A : Type) :=
  | Ret (a : A)
  | Raise (e : pyexn).
Arguments Ret {A} a.
Arguments Raise {A} e.

(** One entry of [answer_list]: the keys [structured_info] and [error] are
    present in the entries of a processed and of a failed row. *)
Record answer := {
  original_text : pystr;
  cleaned_text : pystr;
  structured_info : option pyval;
  error : option pystr;
  final_description : pyval
}.

(** The attributes of [MaterialTextProcessor] the run updates, and two
    counters of the model: the calls made to [chat] and the seconds spent
    in [time.sleep]. *)
Record processor := {
  answer_list : list answer;
  llm_calls : nat;
  llm_errors : nat;
  llm_fallbacks : nat;
  chat_calls : nat;
  slept : nat
}.

Definition add_answer (a : answer) (st : processor) : processor :=
  {| answer_list := answer_list st ++ [a]; llm_calls := llm_calls st;
     llm_errors := llm_errors st; llm_fallbacks := llm_fallbacks st;
     chat_calls := chat_calls st; slept := slept st |}.

Definition incr_llm_calls (st : processor) : processor :=
  {| answer_list := answer_list st; llm_calls := llm_calls st + 1;
     llm_errors := llm_errors st; llm_fallbacks := llm_fallbacks st;
     chat_calls := chat_calls st; slept := slept st |}.

Definition incr_llm_errors (st : processor) : processor :=
  {| answer_list := answer_list st; llm_calls := llm_calls st;
     llm_errors := llm_errors st + 1; llm_fallbacks := llm_fallbacks st;
     chat_calls := chat_calls st; slept := slept st |}.

Definition incr_llm_fallbacks (st : processor) : processor :=
  {| answer_list := answer_list st; llm_calls := llm_calls st;
     llm_errors := llm_errors st; llm_fallbacks := llm_fallbacks st + 1;
     chat_calls := chat_calls st; slept := slept st |}.

Definition incr_chat_calls (st : processor) : processor :=
  {| answer_list := answer_list st; llm_calls := llm_calls st;
     llm_errors := llm_errors st; llm_fallbacks := llm_fallbacks st;
     chat_calls := chat_calls st + 1; slept := slept st |}.

Definition sleep (seconds : nat) (st : processor) : processor :=
  {| answer_list := answer_list st; llm_calls := llm_calls st;
     llm_errors := llm_errors st; llm_fallbacks := llm_fallbacks st;
     chat_calls := chat_calls st; slept := slept st + seconds |}.

(** A method of the processor: it returns or raises, and leaves a state. *)
Definition M (A : Type) : Type := processor -> outcome A * processor.

Definition ret {A} (a : A) : M A := fun st => (Ret a, st).
Definition raise {A} (e : pyexn) : M A := fun st => (Raise e, st).
Definition bind {A B} (m : M A) (k : A -> M B) : M B := fun st =>
  match m st with
  | (Ret a, st') => k a st'
  | (Raise e, st') => (Raise e, st')
  end.
Definition modify (f : processor -> processor) : M unit := fun st => (Ret tt, f st).
Definition lift {A} (o : outcome A) : M A := fun st => (o, st).

(** [try: body except Exception as e: handler(e)] *)
Definition try_except {A} (body : M A) (handler : pyexn -> M A) : M A := fun st =>
  match body st with
  | (Ret a, st') => (Ret a, st')
  | (Raise e, st') => handler e st'
  end.

Declare Scope py_scope.
Delimit Scope py_scope with py.
Notation "x <- m ;; k" := (bind m (fun x => k))
  (at level 100, m at next level, right associativity) : py_scope.
Notation "m ;;; k" := (bind m (fun _ => k))
  (at level 100, right associativity) : py_scope.

(** The same for the pure, raising computations on values. *)
Definition obind {A B} (o : outcome A) (k : A -> outcome B) : outcome B :=
  match o with
  | Ret a => k a
  | Raise e => Raise e
  end.
Notation "x <~ o ;; k" := (obind o (fun x => k))
  (at level 100, o at next level, right associativity) : py_scope.

(** ** The operations of [_create_standardized_description] on values *)

Local Open Scope py_scope.

Definition dict := list (pystr * pyval).

Fixpoint dict_lookup (k : pystr) (d : dict) : option pyval :=
  match d with
  | [] => None
  | (k', v) :: d' => if pystr_eqb k' k then Some v else dict_lookup k d'
  end.

Fixpoint dict_set (k : pystr) (v : pyval) (d : dict) : dict :=
  match d with
  | [] => [(k, v)]
  | (k', v') :: d' =>
    if pystr_eqb k' k then (k', v) :: d' else (k', v') :: dict_set k v d'
  end.

(** The truth value of [v] in an [if]. *)
Definition truthy (v : pyval) : bool :=
  match v with
  | PyNone => false
  | PyBool b => b
  | PyInt z => negb (z =? 0)%Z
  | PyFloat bits => negb (Z.land bits (2 ^ 63 - 1) =? 0)%Z
  | PyStr s => negb (length s =? 0)
  | PyList l => negb (length l =? 0)
  | PyDict d => negb (length d =? 0)
  end.

(** [len(v)] *)
Definition py_len (v : pyval) : outcome Z :=
  match v with
  | PyStr s => Ret (Z.of_nat (length s))
  | PyList l => Ret (Z.of_nat (length l))
  | PyDict d => Ret (Z.of_nat (length d))
  | _ => Raise (TypeError OpLen v)
  end.

(** [d.get(k)] and [d[k]] *)
Definition dict_get (k : pystr) (d : dict) : pyval :=
  match dict_lookup k d with
  | Some v => v
  | None => PyNone
  end.

Definition getitem (k : pystr) (d : dict) : outcome pyval :=
  match dict_lookup k d with
  | Some v => Ret v
  | None => Raise (KeyError (PyStr k))
  end.

(** [v[0]]; the keys of a parsed dictionary are strings, never [0]. *)
Definition index0 (v : pyval) : outcome pyval :=
  match v with
  | PyStr (c :: _) => Ret (PyStr [c])
  | PyList (x :: _) => Ret x
  | PyStr [] | PyList [] => Raise IndexError
  | PyDict _ => Raise (KeyError (PyInt 0))
  | _ => Raise (TypeError OpIndex v)
  end.

(** [v[:n]]; a dictionary takes no slice (the interpreter raises
    [TypeError], from version 3.12 on [KeyError]; the model keeps the
    first). *)
Definition slice_val (n : Z) (v : pyval) : outcome pyval :=
  match v with
  | PyStr s => Ret (PyStr (slice_to n s))
  | PyList l => Ret (PyList (slice_to n l))
  | _ => Raise (TypeError OpSlice v)
  end.

(** [" " + v] *)
Definition space_plus (v : pyval) : outcome pystr :=
  match v with
  | PyStr s => Ret (SPACE :: s)
  | _ => Raise (TypeError OpConcat v)
  end.

(** [desc += t] for a string [t]: a string is rebound to the longer
    string, a list is extended in place by the characters of [t]. *)
Definition iadd (desc : pyval) (t : pystr) : outcome pyval :=
  match desc with
  | PyStr s => Ret (PyStr (s ++ t))
  | PyList l => Ret (PyList (l ++ map (fun c => PyStr [c]) t))
  | _ => Raise (TypeError OpIAdd desc)
  end.

(** [desc] is the object [info["product_name"]]: when it is a list, the
    extension by [+=] is seen in [info]. *)
Definition after_iadd (desc desc' : pyval) (info : dict) : dict :=
  match desc with
  | PyList _ => dict_set K_product_name desc' info
  | _ => info
  end.

(** The fallback construction of [_create_standardized_description], up to
    the final slice: the description and [info] as the code leaves it. *)
Definition fallback_construction (info : dict) : outcome (pyval * dict) :=
  desc <~ getitem K_product_name info ;;
  chars <~ getitem K_characteristics info ;;
  if truthy chars then
    char <~ index0 chars ;;
    len_desc <~ py_len desc ;;
    len_char <~ py_len char ;;
    if (len_desc + 1 + len_char <=? 40)%Z then
      t <~ space_plus char ;;
      desc' <~ iadd desc t ;;
      Ret (desc', after_iadd desc desc' info)
    else
      let space_left := (40 - len_desc - 1)%Z in
      if (space_left >=? 3)%Z then
        part <~ slice_val space_left char ;;
        t <~ space_plus part ;;
        desc' <~ iadd desc t ;;
        Ret (desc', after_iadd desc desc' info)
      else Ret (desc, info)
  else Ret (desc, info).

(** [_create_standardized_description]: the final description, and [info]
    as the call leaves it. *)
Definition _create_standardized_description (info : pyval)
  : outcome (pyval * pyval) :=
  match info with
  | PyDict info =>
    let construct :=
      r <~ fallback_construction info ;;
      desc <~ slice_val 40 (fst r) ;;
      Ret (desc, PyDict (snd r)) in
    if truthy (dict_get K_short_description info) then
      desc <~ getitem K_short_description info ;;
      n <~ py_len desc ;;
      if (n <=? 40)%Z then Ret (desc, PyDict info) else construct
    else construct
  | _ => Raise AttributeError
  end.

(** ** The prompt of [_create_llm_prompt]

    The template is written line by line; in these literals a backquote
    stands for the double quote of the source. *)
Definition template (ls : list string) : pystr :=
  map (fun c => if (c =? 96)%N then 34%N else c)
      (join [10%N] (map py ls)).

Local Open Scope string_scope.

Definition prompt_head : pystr := Eval cbv in template
  [ "Extract product information from this German material description in JSON format:";
    "{";
    "    `product_name`: `main product name`,";
    "    `characteristics`: [`key specs`],";
    "    `material_type`: `type`,";
    "    `unit_of_measure`: `ST`,";
    "    `categorization`: {},";
    "    `short_description`: `concise description under 40 chars`";
    "}";
    "";
    "Description: " ].

Definition prompt_tail : pystr := Eval cbv in template
  [ "";
    "";
    "Rules:";
    "1. Keep short_description under 40 characters";
    "2. Include key distinguishing features";
    "3. For items starting with `für`, include what it's for in the name";
    "4. Preserve part numbers and specifications";
    "5. For technical components, include type/size/material";
    "";
    "Example:";
    "Input: `für APIC Wasserfilter FMA 9000 | Ref: 9000/CPF01/230/VH | Pos. 48`";
    "Output: {";
    "    `product_name`: `APIC Wasserfilter FMA 9000`,";
    "    `characteristics`: [`Ref: 9000/CPF01/230/VH`, `Pos. 48`],";
    "    `material_type`: `filter`,";
    "    `unit_of_measure`: `ST`,";
    "    `categorization`: {},";
    "    `short_description`: `APIC Wasserfilter FMA 9000`";
    "}";
    "";
    "Input: `Siemens Schütz | Spulensp. 230V, 50HZ/AC | Leistung 45,0 KW/400V`";
    "Output: {";
    "    `product_name`: `Siemens Schütz`,";
    "    `characteristics`: [`230V, 50HZ/AC`, `45,0 KW/400V`],";
    "    `material_type`: `electrical`,";
    "    `unit_of_measure`: `ST`,";
    "    `categorization`: {";
    "        `Spannung (V)`: `230`,";
    "        `Leistung (kW)`: `45.0`";
    "    },";
    "    `short_description`: `Siemens Schütz 230V 45KW`";
    "}";
    "" ].

Local Close Scope string_scope.

Definition _create_llm_prompt (text : pystr) : pystr :=
  prompt_head ++ text ++ prompt_tail.

(** ** The generative path *)

(** What one call of [chat] does: it raises [ConnectionError], raises
    another exception, returns an empty response or message, or returns a
    message with its content ([None] when the service sent none). *)
Inductive chat_outcome :=
  | ChatConnectionError
  | ChatRaises
  | ChatEmpty
  | ChatMessage (content : option pystr).

Definition LBRACE : cp := 123%N.
Definition RBRACE : cp := 125%N.

Definition max_retries : nat := 3.
Definition retry_delay : nat := 2.

Definition EMPTY_RESPONSE : pystr := Eval cbv in py "Empty LLM response".
Definition NO_JSON : pystr := Eval cbv in py "No JSON found in response".
Definition ALL_FAILED : pystr := Eval cbv in py "All LLM attempts failed".
Definition ERROR : pystr := Eval cbv in py "ERROR".

Section Processor.

Variable lower : pystr -> pystr.

(** The text-generation service: the outcome of the [n]-th call of the run
    on a prompt. *)
Variable chat : nat -> pystr -> chat_outcome.

(** [json.loads]: the value parsed, [None] for a [JSONDecodeError]. *)
Variable json_loads : pystr -> option pyval.

(** [str(e)] of an exception. *)
Variable exn_str : pyexn -> pystr.

(** [_parse_llm_response]; its [except] branches log and raise again. *)
Definition _parse_llm_response (content : option pystr) : outcome pyval :=
  match content with
  | None => Raise AttributeError
  | Some content =>
    let content := strip content in
    let start := find LBRACE content in
    let end_ := (rfind RBRACE content + 1)%Z in
    if ((start <? 0) || (end_ <=? 0))%Z then Raise (ValueError NO_JSON)
    else
      let json_str := slice start end_ content in
      match json_loads json_str with
      | Some v => Ret v
      | None => Raise JSONDecodeError
      end
  end.

(** The [try] body of one attempt of [_call_llm_for_extraction]. *)
Definition llm_attempt (text : pystr) : M pyval := fun st =>
  let response := chat (chat_calls st) (_create_llm_prompt text) in
  let st := incr_chat_calls st in
  match response with
  | ChatConnectionError => (Raise ConnectionError, st)
  | ChatRaises => (Raise ServiceError, st)
  | ChatEmpty => (Raise (ValueError EMPTY_RESPONSE), st)
  | ChatMessage content =>
    let st := incr_llm_calls st in
    (_parse_llm_response content, st)
  end.

Definition sleep_if (b : bool) (seconds : nat) : M unit :=
  if b then modify (sleep seconds) else ret tt.

(** The loop [for attempt in range(max_retries)] and what follows it. *)
Fixpoint llm_loop (attempts : list nat) (text : pystr) : M pyval :=
  match attempts with
  | [] =>
    modify incr_llm_errors ;;;
    raise (RuntimeError ALL_FAILED)
  | attempt :: later =>
    try_except (llm_attempt text)
      (fun e =>
         match e with
         | ConnectionError =>
           sleep_if (attempt <? max_retries - 1) (retry_delay * (attempt + 1)) ;;;
           llm_loop later text
         | _ =>
           sleep_if (attempt <? max_retries - 1) retry_delay ;;;
           llm_loop later text
         end)
  end.

(** [_call_llm_for_extraction]: the LLM call with retries. *)
Definition _call_llm_for_extraction (text : pystr) : M pyval :=
  llm_loop (seq 0 max_retries) text.

(** The test of [_extract_with_fallback] on the heuristic result. *)
Definition too_basic (result : ProductInfo) : bool :=
  (length (characteristics result) =? 0)
  || (length (split_ws (product_name result)) =? 1).

(** [_extract_with_fallback]: extraction with fallback to the simple method
    if the LLM fails. *)
Definition _extract_with_fallback (text : pystr) : M pyval :=
  try_except
    (let result := _simple_extraction lower text in
     if too_basic result
     then _call_llm_for_extraction text
     else ret (to_dict result))
    (fun e =>
       modify incr_llm_fallbacks ;;;
       ret (to_dict (_create_fallback_info lower text))).

(** A row of the table, as the [str()] of each of its cells. *)
Definition row := list pystr.

(** [str(row.iloc[3]) if len(row) > 3 else ""]; [base_text], read from the
    cell before, is not used. *)
Definition row_text (r : row) : pystr :=
  if 3 <? length r then nth 3 r [] else [].

(** The [try] body of the loop of [process_materials], past the two texts:
    they are bound before anything can raise, so the handler finds both. *)
Definition row_body (text cleaned_text : pystr) : M unit :=
  match cleaned_text with
  | [] => ret tt
  | _ =>
    product_info <- _extract_with_fallback cleaned_text ;;
    d <- lift (_create_standardized_description product_info) ;;
    modify (add_answer
      {| original_text := text; cleaned_text := cleaned_text;
         structured_info := Some (snd d); error := None;
         final_description := fst d |})
  end.

(** The entry its [except] branch stores. *)
Definition error_answer (text cleaned_text : pystr) (e : pyexn) : answer :=
  {| original_text := text; cleaned_text := cleaned_text;
     structured_info := None; error := Some (exn_str e);
     final_description := PyStr ERROR |}.

Definition process_row (r : row) : M unit :=
  let text := row_text r in
  let cleaned_text := _preprocess_text (PyStr text) in
  try_except (row_body text cleaned_text)
    (fun e => modify (add_answer (error_answer text cleaned_text e))).

Fixpoint for_each {A} (l : list A) (body : A -> M unit) : M unit :=
  match l with
  | [] => ret tt
  | x :: l' => body x ;;; for_each l' body
  end.

(** [process_materials]: process all material texts of the table [df]. *)
Definition process_materials (df : list row) : M unit :=
  for_each df process_row.

End Processor.

(** [__init__]: nothing answered, all counters at zero. *)
Definition init : processor :=
  {| answer_list := []; llm_calls := 0; llm_errors := 0; llm_fallbacks := 0;
     chat_calls := 0; slept := 0 |}.

(** * The vocabulary of the properties *)

(** ** Normal texts *)

(** [s] starts with a whitespace character. *)
Definition starts_ws (s : pystr) : bool :=
  match s with
  | c :: _ => is_space c
  | [] => false
  end.

(** Every whitespace character is one space, and is followed by none. *)
Fixpoint single_spaced (s : pystr) : Prop :=
  match s with
  | [] => True
  | c :: s' =>
    (is_space c = true -> c = SPACE /\ starts_ws s' = false) /\ single_spaced s'
  end.

(** No two slashes in a row. *)
Fixpoint no_dslash (s : pystr) : Prop :=
  match s with
  | [] => True
  | c :: s' => (c = SLASH -> hd_error s' <> Some SLASH) /\ no_dslash s'
  end.

(** A match consumes a non-empty prefix of the text. *)
Definition consuming (m : matcher) : Prop :=
  forall s rest, m s = Some rest -> exists pre, pre <> [] /\ s = pre ++ rest.

(** [P] holds of the tail of a text it holds of. *)
Definition tail_closed (P : pystr -> Prop) : Prop :=
  forall c s, P (c :: s) -> P s.

(** The texts [_preprocess_text] returns, and leaves as they are. *)
Record normal (s : pystr) : Prop := {
  normal_spaced : single_spaced s;
  normal_slash : no_dslash s;
  normal_start : starts_ws s = false;
  normal_end : starts_ws (rev s) = false
}.

(** ** Attempts of the retry loop *)

(** The value an attempt returns when the service answered [o], if any. *)
Definition attempt_value (json_loads : pystr -> option pyval) (o : chat_outcome)
  : option pyval :=
  match o with
  | ChatMessage content =>
    match _parse_llm_response json_loads content with
    | Ret v => Some v
    | Raise _ => None
    end
  | _ => None
  end.

(** Whether the service returned a message: the attempts [llm_calls] counts. *)
Definition responded (o : chat_outcome) : nat :=
  match o with
  | ChatMessage _ => 1
  | _ => 0
  end.

(** The pause after a failed attempt. *)
Definition backoff (attempt : nat) (o : chat_outcome) : nat :=
  if attempt <? max_retries - 1 then
    match o with
    | ChatConnectionError => retry_delay * (attempt + 1)
    | _ => retry_delay
    end
  else 0.

(** ** Names and structures *)

(** A name that is one token: not empty, no whitespace in it. *)
Definition single_token (name : pystr) : Prop :=
  name <> [] /\ Forall (fun c => is_space c = false) name.

(** No whitespace at either end. *)
Definition stripped (s : pystr) : Prop :=
  starts_ws s = false /\ starts_ws (rev s) = false.

(** The structure both builders return for a text without segments. *)
Definition EMPTY_INFO : ProductInfo :=
  {| product_name := []; characteristics := []; material_type := OTHER;
     unit_of_measure := ST; categorization := []; short_description := [] |}.

(** [len(v) <= 40] *)
Definition at_most_40 (v : pyval) : Prop :=
  exists n, py_len v = Ret n /\ (n <= 40)%Z.


(** The answer of a row whose description was built. *)
Definition row_answer (text cleaned_text : pystr) (d : pyval * pyval) : answer :=
  {| original_text := text; cleaned_text := cleaned_text;
     structured_info := Some (snd d); error := None;
     final_description := fst d |}.

(** ** Keywords *)

(** [kw] occurs in [s]. *)
Definition occurs (kw s : pystr) : Prop :=
  exists pre post, s = pre ++ kw ++ post.

(** Some keyword of the entry occurs in the text. *)
Definition matches (keywords : list pystr) (low : pystr) : Prop :=
  exists kw, In kw keywords /\ occurs kw low.

(** A character of a text without segments: whitespace or the pipe. *)
Definition blank (c : cp) : Prop := is_space c = true \/ c = PIPE.

(** The same, as a test. *)
Definition blankb (c : cp) : bool := is_space c || (c =? PIPE)%N.

(** ** Functions that lower Latin-1 text as [str.lower] does *)

(** A text of code points below U+0100. *)
Definition latin1 (s : pystr) : bool := forallb (fun c => (c <? 256)%N) s.

(** [lower] is [lower_latin1] on such texts. *)
Definition lowers_latin1 (lower : pystr -> pystr) : Prop :=
  forall s, latin1 s = true -> lower s = lower_latin1 s.

(** ** Sample inputs *)

(** A [json.loads] that knows the replies of the samples. *)
Definition json_table (table : dict) : pystr -> option pyval :=
  fun s => dict_lookup s table.

Local Open Scope string_scope.

(** Two replies of the service: the empty object, and a structure whose
    short description has 44 characters. *)
Definition REPLY_EMPTY : pystr := Eval cbv in py "{}".

Definition REPLY_LONG : pystr := Eval cbv in template
  [ "{`product_name`: `Pumpe`, `characteristics`: [],";
    " `material_type`: `other`, `unit_of_measure`: `ST`, `categorization`: {},";
    " `short_description`: `Pumpe fuer Kuehlwasserkreislauf Halle 3 Nord`}" ].

Local Close Scope string_scope.

Definition LONG_DESCRIPTION : pystr :=
  Eval cbv in py "Pumpe fuer Kuehlwasserkreislauf Halle 3 Nord".

Definition LONG_INFO : pyval :=
  PyDict [ (K_product_name, PyStr (py "Pumpe"));
           (K_characteristics, PyList []);
           (K_material_type, PyStr OTHER);
           (K_unit_of_measure, PyStr ST);
           (K_categorization, PyDict []);
           (K_short_description, PyStr LONG_DESCRIPTION) ].

Definition sample_json : pystr -> option pyval :=
  json_table [ (REPLY_EMPTY, PyDict []); (REPLY_LONG, LONG_INFO) ].

(** [str(e)] where the source or the key fixes it. *)
Definition sample_exn_str (e : pyexn) : pystr :=
  match e with
  | ValueError msg | RuntimeError msg => msg
  | KeyError (PyStr k) => [39%N] ++ k ++ [39%N]
  | _ => []
  end.

Definition chat_flaky : nat -> pystr -> chat_outcome :=
  fun n _ => if n <? 2 then ChatConnectionError else ChatMessage (Some REPLY_EMPTY).
Definition chat_down : nat -> pystr -> chat_outcome :=
  fun _ _ => ChatConnectionError.
Definition chat_prose : nat -> pystr -> chat_outcome :=
  fun _ _ => ChatMessage (Some (py "I cannot find a product here.")).

(** Texts and a row of the table. *)
Definition TEXT_PUMPE : pystr := Eval cbv in py "Pumpe".
Definition TEXT_APIC : pystr := Eval cbv in
  py "für APIC Wasserfilter FMA 9000 | Ref: 9000/CPF01/230/VH | Pos. 48".
Definition TEXT_SIEMENS : pystr := Eval cbv in
  py "Siemens Schütz | Spulensp. 230V, 50HZ/AC | Leistung 45,0 KW/400V".

(** ** Further vocabulary *)

(** [s] has a character that is not whitespace. *)
Definition has_ink (s : pystr) : bool := existsb (fun c => negb (is_space c)) s.

(** [a] is the start of [b]. *)
Definition is_prefix (a b : pystr) : Prop := exists t, b = a ++ t.

(** The five material types. *)
Definition MATERIAL_TYPES : list pystr :=
  map fst type_keywords ++ [OTHER].

(** The name followed by a space and the first characteristic, when there
    is one. *)
Definition name_and_first (name : pystr) (chars : list pystr) : pystr :=
  match chars with
  | [] => name
  | char :: _ => name ++ SPACE :: char
  end.

(** The pause the source asks for after a failed attempt that is not the
    last: twice the number of the attempt (counted from one) after a
    connection error, two seconds after any other failure. *)
Definition pause (attempt : nat) (o : chat_outcome) : nat :=
  match o with
  | ChatConnectionError => 2 * (attempt + 1)
  | _ => 2
  end.

(** How the counters of [st'] stand to those of an earlier state [st]: as
    many fallbacks as failures since, no more messages than calls, three
    calls for each failure, at most three calls for each answer, at most
    two seconds of sleep for each call. *)
Definition accounts (st st' : processor) : Prop :=
  llm_fallbacks st' + llm_errors st = llm_errors st' + llm_fallbacks st
  /\ llm_calls st' + chat_calls st <= chat_calls st' + llm_calls st
  /\ 3 * llm_errors st' + chat_calls st <= chat_calls st' + 3 * llm_errors st
  /\ chat_calls st' + 3 * length (answer_list st)
     <= 3 * length (answer_list st') + chat_calls st
  /\ slept st' + 2 * chat_calls st <= 2 * chat_calls st' + slept st
  /\ chat_calls st <= chat_calls st'
  /\ length (answer_list st) <= length (answer_list st').

(** The description [_create_standardized_description] rebuilds from a
    name and characteristics that are strings, before the last cut. *)
Definition rebuilt (name : pystr) (chars : list pystr) : pystr :=
  match chars with
  | [] => name
  | char :: _ =>
    if (len name + 1 + len char <=? 40)%Z then name ++ SPACE :: char
    else if (40 - len name - 1 >=? 3)%Z
         then name ++ SPACE :: slice_to (40 - len name - 1) char
         else name
  end.

(** The final description of a structure whose fields are strings. *)
Definition described (p : ProductInfo) : pystr :=
  if negb (length (short_description p) =? 0)
     && (len (short_description p) <=? 40)%Z
  then short_description p
  else slice_to 40 (rebuilt (product_name p) (characteristics p)).

(** The short description cannot be used: it is missing or falsy, or a
    string of more than 40 characters. *)
Definition no_short_description (info : dict) : Prop :=
  truthy (dict_get K_short_description info) = false
  \/ exists s, dict_lookup K_short_description info = Some (PyStr s)
               /\ 40 < length s.


(** Further sample rows: one of two cells, one whose fourth cell is
    blank, one with the text of the contactor. *)
Definition row_short : row := [py "1"; py "4711"].
Definition row_blank : row := [py "1"; py "4711"; py "Pumpe"; py "   "].

(** * Properties *)

Set Implicit Arguments.

(** ** The normalizer *)

Lemma tail_closed_app P : tail_closed P -> forall pre s, P (pre ++ s) -> P s.
Proof.
  intros HP pre; induction pre as [|c pre IH]; intros s H; [exact H|].
  apply IH. exact (HP _ _ H).
Qed.

Lemma drop_while_suffix p s : exists pre, s = pre ++ drop_while p s.
Proof.
  induction s as [|c s [pre IH]]; [now exists []|].
  simpl. destruct (p c).
  - exists (c :: pre). simpl. now f_equal.
  - now exists [].
Qed.

Lemma drop_while_starts s : starts_ws (drop_while is_space s) = false.
Proof.
  induction s as [|c s IH]; [reflexivity|].
  simpl. destruct (is_space c) eqn:E; [exact IH|]. simpl. exact E.
Qed.

Lemma drop_while_id s : starts_ws s = false -> drop_while is_space s = s.
Proof.
  destruct s as [|c s]; [reflexivity|]. simpl. now intros ->.
Qed.

(** *** The scan of [sub] *)

Lemma consuming_length m : consuming m ->
  forall s rest, m s = Some rest -> length rest < length s.
Proof.
  intros Hm s rest H. destruct (Hm _ _ H) as [pre [Hne ->]].
  rewrite length_app. destruct pre; [congruence|simpl; lia].
Qed.

Lemma sub_fuel_enough m repl : consuming m ->
  forall f1 f2 s, length s <= f1 -> length s <= f2 ->
  sub_fuel m repl f1 s = sub_fuel m repl f2 s.
Proof.
  intros Hm. induction f1 as [|f1 IH]; intros f2 s H1 H2.
  - destruct s; [|simpl in H1; lia]. now destruct f2.
  - destruct s as [|c s]; [now destruct f2|].
    destruct f2 as [|f2]; [simpl in H2; lia|].
    simpl in H1, H2. simpl.
    destruct (m (c :: s)) as [rest|] eqn:E.
    + apply consuming_length in E; [|exact Hm]. simpl in E.
      f_equal. apply IH; lia.
    + f_equal. apply IH; lia.
Qed.

(** The equation of the scan, free of fuel. *)
Lemma sub_cons m repl : consuming m -> forall c s,
  sub m repl (c :: s) =
  match m (c :: s) with
  | Some rest => repl ++ sub m repl rest
  | None => c :: sub m repl s
  end.
Proof.
  intros Hm c s. unfold sub. simpl.
  destruct (m (c :: s)) as [rest|] eqn:E.
  - f_equal. apply consuming_length in E; [|exact Hm]. simpl in E.
    apply sub_fuel_enough; [exact Hm| lia | lia].
  - reflexivity.
Qed.

Lemma sub_nil m repl : sub m repl [] = [].
Proof. reflexivity. Qed.

(** Where every match is the replacement itself, the scan changes nothing. *)
Lemma sub_fixed m repl (P : pystr -> Prop) :
  consuming m -> tail_closed P ->
  (forall t rest, P t -> m t = Some rest -> t = repl ++ rest) ->
  forall s, P s -> sub m repl s = s.
Proof.
  intros Hm HP Hfix s.
  remember (length s) as n eqn:Hn.
  revert s Hn. induction n as [n IH] using lt_wf_ind. intros s Hn Hs.
  destruct s as [|c s]; [reflexivity|].
  rewrite sub_cons by exact Hm.
  destruct (m (c :: s)) as [rest|] eqn:E.
  - pose proof (Hfix _ _ Hs E) as Heq.
    pose proof (consuming_length Hm _ E) as Hlen.
    rewrite (IH (length rest)); [now symmetry| subst n; exact Hlen | reflexivity |].
    rewrite Heq in Hs. exact (tail_closed_app HP _ _ Hs).
  - f_equal. apply (IH (length s)); [subst n; simpl; lia | reflexivity |].
    exact (HP _ _ Hs).
Qed.

Lemma starts_with_app p s :
  starts_with p s = true -> s = p ++ skipn (length p) s.
Proof.
  revert s. induction p as [|a p IH]; intros s H; [reflexivity|].
  destruct s as [|b s]; [discriminate|]. simpl in H.
  apply andb_true_iff in H. destruct H as [Hab Hp].
  apply N.eqb_eq in Hab. subst b. simpl. f_equal. now apply IH.
Qed.

Lemma m_lit_consuming old : old <> [] -> consuming (m_lit old).
Proof.
  intros Hne s rest H. unfold m_lit in H.
  destruct (starts_with old s) eqn:E; [|discriminate].
  injection H as <-. exists old. split; [exact Hne|]. now apply starts_with_app.
Qed.

Lemma m_ws_inv s rest : m_ws s = Some rest ->
  exists c s', s = c :: s' /\ is_space c = true /\ rest = drop_while is_space s'.
Proof.
  destruct s as [|c s']; [discriminate|]. simpl.
  destruct (is_space c) eqn:E; [|discriminate].
  intros H. injection H as <-. now exists c, s'.
Qed.

Lemma m_ws_consuming : consuming m_ws.
Proof.
  intros s rest H. destruct (m_ws_inv _ H) as (c & s' & -> & _ & ->).
  destruct (drop_while_suffix is_space s') as [pre Hpre].
  exists (c :: pre). split; [discriminate|]. simpl. now f_equal.
Qed.

Lemma m_sep_inv s rest : m_sep s = Some rest ->
  exists r, m_ws s = Some (PIPE :: r) /\ m_ws r = Some rest.
Proof.
  unfold m_sep. destruct (m_ws s) as [[|c r]|]; try discriminate.
  destruct (N.eqb_spec c PIPE); [|discriminate].
  subst c. intros H. now exists r.
Qed.

Lemma m_sep_consuming : consuming m_sep.
Proof.
  intros s rest H. destruct (m_sep_inv _ H) as (r & H1 & H2).
  destruct (m_ws_consuming _ H1) as (pre1 & Hne & ->).
  destruct (m_ws_consuming _ H2) as (pre2 & _ & ->).
  exists (pre1 ++ PIPE :: pre2). split.
  - destruct pre1; [congruence|discriminate].
  - rewrite <- app_assoc. reflexivity.
Qed.

Lemma single_spaced_tail : tail_closed single_spaced.
Proof. intros c s H. exact (proj2 H). Qed.

Lemma no_dslash_tail : tail_closed no_dslash.
Proof. intros c s H. exact (proj2 H). Qed.

Lemma starts_ws_app_l a b : starts_ws (a ++ b) = false -> starts_ws a = false.
Proof. destruct a; [reflexivity|exact (fun H => H)]. Qed.

Lemma single_spaced_app_l a b : single_spaced (a ++ b) -> single_spaced a.
Proof.
  induction a as [|c a IH]; [constructor|]. simpl. intros [H1 H2]. split.
  - intros Hc. destruct (H1 Hc) as [-> Hs]. split; [reflexivity|].
    exact (starts_ws_app_l _ _ Hs).
  - exact (IH H2).
Qed.

Lemma no_dslash_app_l a b : no_dslash (a ++ b) -> no_dslash a.
Proof.
  induction a as [|c a IH]; [constructor|]. simpl. intros [H1 H2]. split.
  - intros Hc. specialize (H1 Hc). destruct a; [discriminate| exact H1].
  - exact (IH H2).
Qed.

Lemma no_dslash_repl repl X :
  Forall (fun c => c <> SLASH) repl -> no_dslash X -> no_dslash (repl ++ X).
Proof.
  induction 1 as [|c repl Hc _ IH]; intros HX; [exact HX|].
  simpl. split; [intros ->; congruence | exact (IH HX)].
Qed.

(** The scan writes no double slash where it matches every one it meets;
    a text that has none is such a text. *)
Lemma sub_no_dslash m repl (P : pystr -> Prop) :
  consuming m -> tail_closed P ->
  (forall t, P (SLASH :: SLASH :: t) -> m (SLASH :: SLASH :: t) <> None) ->
  repl <> [] -> Forall (fun c => c <> SLASH) repl ->
  forall s, P s ->
  no_dslash (sub m repl s)
  /\ (hd_error (sub m repl s) = Some SLASH -> hd_error s = Some SLASH).
Proof.
  intros Hm HP Hall Hne Hrepl s.
  remember (length s) as n eqn:Hn.
  revert s Hn. induction n as [n IH] using lt_wf_ind. intros s Hn Hs.
  destruct s as [|c s]; [split; [constructor | discriminate]|].
  rewrite sub_cons by exact Hm.
  destruct (m (c :: s)) as [rest|] eqn:E.
  - pose proof (consuming_length Hm _ E) as Hlen.
    destruct (Hm _ _ E) as (pre & _ & Hpre).
    assert (Hrest : P rest).
    { rewrite Hpre in Hs. exact (tail_closed_app HP _ _ Hs). }
    destruct (IH (length rest) ltac:(subst n; exact Hlen) rest eq_refl Hrest)
      as [IH1 _].
    split; [now apply no_dslash_repl|].
    destruct Hrepl as [|r repl' Hr _]; [congruence|].
    simpl. intros H. congruence.
  - destruct (IH (length s) ltac:(subst n; simpl; lia) s eq_refl (HP _ _ Hs))
      as [IH1 IH2].
    split; [|simpl; congruence].
    simpl. split; [|exact IH1].
    intros -> Hhd. specialize (IH2 Hhd).
    destruct s as [|d s]; [discriminate|]. simpl in IH2.
    injection IH2 as ->. exact (Hall _ Hs E).
Qed.

Lemma SEP_no_slash : Forall (fun c => c <> SLASH) SEP.
Proof. repeat constructor; discriminate. Qed.

Lemma replace_no_dslash s : no_dslash (sub (m_lit DSLASH) SEP s).
Proof.
  refine (proj1 (@sub_no_dslash (m_lit DSLASH) SEP (fun _ => True) _ _ _ _ _ s I)).
  - apply m_lit_consuming. discriminate.
  - intros c t _. exact I.
  - intros t _. discriminate.
  - discriminate.
  - exact SEP_no_slash.
Qed.

Lemma sub_keeps_no_dslash m repl s :
  consuming m -> repl <> [] -> Forall (fun c => c <> SLASH) repl ->
  no_dslash s -> no_dslash (sub m repl s).
Proof.
  intros Hm Hne Hrepl Hs.
  refine (proj1 (@sub_no_dslash m repl no_dslash Hm no_dslash_tail _ Hne Hrepl s Hs)).
  intros t [H _]. exfalso. exact (H eq_refl eq_refl).
Qed.

(** [re.sub(r'\s+', ' ', text)] leaves single spaces only. *)
Lemma collapse_single_spaced s : single_spaced (sub m_ws [SPACE] s).
Proof.
  remember (length s) as n eqn:Hn.
  revert s Hn. induction n as [n IH] using lt_wf_ind. intros s Hn.
  destruct s as [|c s]; [constructor|].
  rewrite sub_cons by exact m_ws_consuming.
  destruct (m_ws (c :: s)) as [rest|] eqn:E.
  - pose proof (consuming_length m_ws_consuming _ E) as Hlen.
    destruct (m_ws_inv _ E) as (c' & s' & Heq & _ & Hrest).
    assert (Hst : starts_ws rest = false)
      by (rewrite Hrest; apply drop_while_starts).
    simpl. split.
    + intros _. split; [reflexivity|].
      destruct rest as [|d r]; [reflexivity|].
      rewrite sub_cons by exact m_ws_consuming.
      simpl in Hst. simpl. rewrite Hst. simpl. exact Hst.
    + apply (IH (length rest)); [subst n; exact Hlen | reflexivity].
  - simpl in E. destruct (is_space c) eqn:Ec; [discriminate|].
    simpl. split; [congruence|].
    apply (IH (length s)); [subst n; simpl; lia | reflexivity].
Qed.

(** *** [strip] *)

Lemma strip_decomp s : exists pre post, s = pre ++ strip s ++ post.
Proof.
  unfold strip, rstrip, lstrip.
  destruct (drop_while_suffix is_space s) as [pre Hpre].
  destruct (drop_while_suffix is_space (rev (drop_while is_space s))) as [pre2 Hpre2].
  exists pre, (rev pre2).
  rewrite <- rev_app_distr, <- Hpre2, rev_involutive. exact Hpre.
Qed.

Lemma strip_starts s : starts_ws (strip s) = false.
Proof.
  unfold strip, rstrip, lstrip.
  destruct (drop_while_suffix is_space (rev (drop_while is_space s))) as [pre2 Hpre2].
  apply (f_equal (@rev cp)) in Hpre2.
  rewrite rev_involutive, rev_app_distr in Hpre2.
  apply starts_ws_app_l with (b := rev pre2).
  rewrite <- Hpre2. apply drop_while_starts.
Qed.

Lemma strip_ends s : starts_ws (rev (strip s)) = false.
Proof.
  unfold strip, rstrip. rewrite rev_involutive. apply drop_while_starts.
Qed.

Lemma strip_id s :
  starts_ws s = false -> starts_ws (rev s) = false -> strip s = s.
Proof.
  intros H1 H2. unfold strip, rstrip, lstrip.
  rewrite (drop_while_id _ H1), (drop_while_id _ H2). apply rev_involutive.
Qed.

Lemma strip_single_spaced s : single_spaced s -> single_spaced (strip s).
Proof.
  intros H. destruct (strip_decomp s) as (pre & post & Heq).
  rewrite Heq in H. apply (tail_closed_app single_spaced_tail) in H.
  exact (single_spaced_app_l _ _ H).
Qed.

Lemma strip_no_dslash s : no_dslash s -> no_dslash (strip s).
Proof.
  intros H. destruct (strip_decomp s) as (pre & post & Heq).
  rewrite Heq in H. apply (tail_closed_app no_dslash_tail) in H.
  exact (no_dslash_app_l _ _ H).
Qed.

(** *** [split] and [join] *)

Lemma split_ws_aux_nonempty s : forall cur,
  cur <> [] -> split_ws_aux cur s <> [].
Proof.
  induction s as [|c s IH]; intros cur Hcur; simpl.
  - destruct cur; [congruence|discriminate].
  - destruct (is_space c).
    + destruct cur; [congruence|discriminate].
    + apply IH. discriminate.
Qed.

Lemma join_cons sep x l : l <> [] -> join sep (x :: l) = x ++ sep ++ join sep l.
Proof. destruct l; [congruence|reflexivity]. Qed.

Lemma ends_tail c s :
  starts_ws (rev (c :: s)) = false -> starts_ws (rev s) = false.
Proof. simpl. apply starts_ws_app_l. Qed.

Lemma join_split_aux s : forall cur,
  single_spaced s -> starts_ws (rev s) = false ->
  (starts_ws s = true -> cur <> []) ->
  join [SPACE] (split_ws_aux cur s) = rev cur ++ s.
Proof.
  induction s as [|c s IH]; intros cur Hss Hend Hcur.
  - simpl. destruct cur as [|x cur]; [reflexivity|].
    simpl. now rewrite app_nil_r.
  - pose proof (ends_tail _ _ Hend) as Hend'.
    destruct Hss as [Hc Hss]. simpl.
    destruct (is_space c) eqn:Ec.
    + destruct (Hc eq_refl) as [-> Hs].
      destruct s as [|d s]; [simpl in Hend; congruence|].
      assert (Hne : split_ws_aux [] (d :: s) <> []).
      { simpl. simpl in Hs. rewrite Hs. apply split_ws_aux_nonempty. discriminate. }
      destruct cur as [|x cur]; [exfalso; now apply (Hcur Ec)|].
      rewrite (join_cons _ _ Hne), IH; [reflexivity|exact Hss|exact Hend'|].
      rewrite Hs. discriminate.
    + rewrite IH; [simpl; now rewrite <- app_assoc|exact Hss|exact Hend'|].
      intros _. discriminate.
Qed.

Lemma join_split s :
  single_spaced s -> starts_ws s = false -> starts_ws (rev s) = false ->
  join [SPACE] (split_ws s) = s.
Proof.
  intros H1 H2 H3. unfold split_ws.
  rewrite join_split_aux; [reflexivity|exact H1|exact H3|].
  rewrite H2. discriminate.
Qed.

(** *** The normal form of [_preprocess_text] *)

Lemma preprocess_normal s : normal (_preprocess_text (PyStr s)).
Proof.
  unfold _preprocess_text. split.
  - apply strip_single_spaced, collapse_single_spaced.
  - apply strip_no_dslash.
    apply sub_keeps_no_dslash;
      [exact m_ws_consuming | discriminate | repeat constructor; discriminate |].
    apply sub_keeps_no_dslash;
      [exact m_sep_consuming | discriminate | exact SEP_no_slash |].
    apply replace_no_dslash.
  - apply strip_starts.
  - apply strip_ends.
Qed.

Lemma m_ws_single_spaced t rest :
  single_spaced t -> m_ws t = Some rest -> t = SPACE :: rest.
Proof.
  intros Ht H. destruct (m_ws_inv _ H) as (c & s' & -> & Hc & ->).
  destruct Ht as [Ht _]. destruct (Ht Hc) as [-> Hs].
  now rewrite (drop_while_id _ Hs).
Qed.

Lemma normal_fixed s : normal s -> _preprocess_text (PyStr s) = s.
Proof.
  intros [Hss Hds H1 H2]. unfold _preprocess_text.
  rewrite (join_split s Hss H1 H2).
  rewrite (@sub_fixed (m_lit DSLASH) SEP no_dslash); cycle 1.
  - apply m_lit_consuming. discriminate.
  - exact no_dslash_tail.
  - intros t rest Ht H. unfold m_lit in H.
    destruct (starts_with DSLASH t) eqn:E; [|discriminate].
    apply starts_with_app in E. rewrite E in Ht.
    destruct Ht as [Ht _]. exfalso. exact (Ht eq_refl eq_refl).
  - exact Hds.
  - rewrite (@sub_fixed m_sep SEP single_spaced); cycle 1.
    + exact m_sep_consuming.
    + exact single_spaced_tail.
    + intros t rest Ht H. destruct (m_sep_inv _ H) as (r & Hr1 & Hr2).
      pose proof (m_ws_single_spaced t Ht Hr1) as Et. subst t.
      destruct Ht as [_ [_ Ht]].
      now rewrite (m_ws_single_spaced r Ht Hr2).
    + exact Hss.
    + rewrite (@sub_fixed m_ws [SPACE] single_spaced); cycle 1.
      * exact m_ws_consuming.
      * exact single_spaced_tail.
      * intros t rest Ht H. exact (m_ws_single_spaced t Ht H).
      * exact Hss.
      * now apply strip_id.
Qed.

(** C5. The normalizer is idempotent: for every input [x], a string or
    not, normalising the normalised text gives the normalised text. *)
Theorem preprocess_idempotent (x : pyval) :
  _preprocess_text (PyStr (_preprocess_text x)) = _preprocess_text x.
Proof.
  destruct x as [| | | |s| |]; try reflexivity.
  apply normal_fixed, preprocess_normal.
Qed.

(** ** The retry loop *)

Section Retry.

Variable lower : pystr -> pystr.
Variable chat : nat -> pystr -> chat_outcome.
Variable json_loads : pystr -> option pyval.

Local Abbreviation call_llm := (_call_llm_for_extraction chat json_loads).
Local Abbreviation loop := (llm_loop chat json_loads).
Local Abbreviation value := (attempt_value json_loads).

Lemma parse_no_connection_error content :
  _parse_llm_response json_loads content <> Raise ConnectionError.
Proof.
  unfold _parse_llm_response. destruct content as [content|]; [|discriminate].
  destruct (_ || _)%bool; [discriminate|].
  destruct (json_loads _); discriminate.
Qed.

Lemma llm_loop_cons attempt later text :
  loop (attempt :: later) text =
  try_except (llm_attempt chat json_loads text)
    (fun e =>
       match e with
       | ConnectionError =>
         (sleep_if (attempt <? max_retries - 1) (retry_delay * (attempt + 1)) ;;;
          loop later text)%py
       | _ =>
         (sleep_if (attempt <? max_retries - 1) retry_delay ;;;
          loop later text)%py
       end).
Proof. reflexivity. Qed.

(** One turn of the loop: it returns the value of a successful attempt and
    goes on with the later attempts after a failed one. *)
Lemma llm_loop_step attempt later text st :
  let o := chat (chat_calls st) (_create_llm_prompt text) in
  match value o with
  | Some v =>
    loop (attempt :: later) text st = (Ret v, incr_llm_calls (incr_chat_calls st))
  | None =>
    exists st1,
      loop (attempt :: later) text st = loop later text st1
      /\ answer_list st1 = answer_list st
      /\ chat_calls st1 = chat_calls st + 1
      /\ llm_calls st1 = llm_calls st + responded o
      /\ llm_errors st1 = llm_errors st
      /\ llm_fallbacks st1 = llm_fallbacks st
      /\ slept st1 = slept st + backoff attempt o
  end.
Proof.
  intros o. subst o. rewrite llm_loop_cons.
  unfold try_except, llm_attempt, attempt_value, bind, sleep_if, modify, ret,
    backoff.
  destruct (chat (chat_calls st) (_create_llm_prompt text)) as [| | |content].
  1-3: destruct (attempt <? max_retries - 1);
    eexists; (split; [reflexivity|]); simpl; repeat split.
  all: try lia.
  pose proof (parse_no_connection_error content) as Hconn.
  destruct (_parse_llm_response json_loads content) as [v|e]; [reflexivity|].
  destruct e; try congruence; destruct (attempt <? max_retries - 1);
    eexists; (split; [reflexivity|]); simpl; repeat split; lia.
Qed.

Lemma llm_loop_nil text st :
  loop [] text st = (Raise (RuntimeError ALL_FAILED), incr_llm_errors st).
Proof. reflexivity. Qed.

(** What the loop leaves untouched, and the bound on its calls. *)
Lemma llm_loop_frame attempts text : forall st,
  let st' := snd (loop attempts text st) in
  answer_list st' = answer_list st
  /\ llm_fallbacks st' = llm_fallbacks st
  /\ chat_calls st <= chat_calls st' <= chat_calls st + length attempts.
Proof.
  induction attempts as [|attempt later IH]; intros st.
  - simpl. repeat split; lia.
  - pose proof (llm_loop_step attempt later text st) as Hstep.
    cbv zeta in Hstep |- *.
    destruct (value (chat (chat_calls st) (_create_llm_prompt text))) as [v|].
    + rewrite Hstep. simpl. repeat split; lia.
    + destruct Hstep as (st1 & -> & Ha & Hc & _ & _ & Hf & _).
      specialize (IH st1). cbv zeta in IH. simpl length.
      destruct IH as (IHa & IHf & IHc). repeat split; try congruence; lia.
Qed.

Lemma call_llm_first_attempt text st :
  chat_calls st < chat_calls (snd (call_llm text st)).
Proof.
  unfold _call_llm_for_extraction. simpl seq.
  pose proof (llm_loop_step 0 [1; 2] text st) as Hstep. cbv zeta in Hstep.
  destruct (value (chat (chat_calls st) (_create_llm_prompt text))) as [v|].
  - rewrite Hstep. simpl. lia.
  - destruct Hstep as (st1 & -> & _ & Hc & _).
    pose proof (llm_loop_frame [1; 2] text st1) as H. cbv zeta in H. lia.
Qed.

End Retry.

(** ** Tokens of a name *)

Lemma split_ws_aux_nil s : forall cur,
  split_ws_aux cur s = [] -> cur = [] /\ Forall (fun c => is_space c = true) s.
Proof.
  induction s as [|c s IH]; intros cur H; simpl in H.
  - destruct cur; [now split|discriminate].
  - destruct (is_space c) eqn:Ec.
    + destruct cur; [|discriminate].
      destruct (IH _ H) as [_ Hs]. split; [reflexivity|now constructor].
    + destruct (IH _ H) as [Hcur _]. discriminate.
Qed.

Lemma split_ws_aux_token s : forall cur,
  Forall (fun c => is_space c = false) s -> cur <> [] \/ s <> [] ->
  split_ws_aux cur s = [rev cur ++ s].
Proof.
  induction s as [|c s IH]; intros cur Hs Hne; simpl.
  - destruct Hne as [Hne|Hne]; [|congruence].
    destruct cur; [congruence|]. now rewrite app_nil_r.
  - inversion Hs as [|? ? Hc Hs']; subst. rewrite Hc.
    rewrite IH; [|exact Hs'|left; discriminate].
    simpl. now rewrite <- app_assoc.
Qed.

Lemma all_ws_rev s :
  Forall (fun c => is_space c = true) s -> s <> [] -> starts_ws (rev s) = true.
Proof.
  intros Hs Hne. apply Forall_rev in Hs.
  destruct (rev s) as [|c r] eqn:E.
  - apply (f_equal (@rev cp)) in E. rewrite rev_involutive in E. now subst s.
  - now inversion Hs.
Qed.

Lemma split_ws_aux_single s : forall cur,
  starts_ws (rev s) = false -> (starts_ws s = true -> cur <> []) ->
  length (split_ws_aux cur s) = 1 -> Forall (fun c => is_space c = false) s.
Proof.
  induction s as [|c s IH]; intros cur Hend Hcur Hlen; [constructor|].
  simpl in Hlen. destruct (is_space c) eqn:Ec.
  - exfalso. destruct cur as [|x cur]; [now apply (Hcur Ec)|].
    simpl in Hlen. injection Hlen as Hlen. apply length_zero_iff_nil in Hlen.
    destruct (split_ws_aux_nil _ _ Hlen) as [_ Hs].
    assert (Hall : Forall (fun c => is_space c = true) (c :: s)) by now constructor.
    rewrite (all_ws_rev Hall) in Hend; [discriminate|discriminate].
  - constructor; [exact Ec|].
    apply (IH (c :: cur)); [exact (ends_tail _ _ Hend)|discriminate|exact Hlen].
Qed.

(** [len(name.split()) == 1] says that a trimmed name is one token. *)
Lemma one_token_iff s : stripped s ->
  (length (split_ws s) = 1 <-> single_token s).
Proof.
  intros [H1 H2]. unfold split_ws. split.
  - intros Hlen. split.
    + intros ->. discriminate.
    + apply (@split_ws_aux_single s [] H2); [|exact Hlen].
      rewrite H1. discriminate.
  - intros [Hne Hs]. rewrite split_ws_aux_token; [reflexivity|exact Hs|now right].
Qed.

Lemma pipe_parts_In text p : In p (pipe_parts text) -> p <> [] /\ stripped p.
Proof.
  unfold pipe_parts. rewrite filter_In, in_map_iff.
  intros [(q & <- & _) Hne]. split.
  - intros E. rewrite E in Hne. discriminate.
  - split; [apply strip_starts|apply strip_ends].
Qed.

Section Names.

Variable lower : pystr -> pystr.

Lemma name_of_stripped p : stripped p -> stripped (name_of lower p).
Proof.
  intros Hp. unfold name_of. destruct (starts_with FUER (lower p)); [|exact Hp].
  split; [apply strip_starts|apply strip_ends].
Qed.

Lemma simple_extraction_nil text : pipe_parts text = [] ->
  _simple_extraction lower text =
  {| product_name := []; characteristics := []; material_type := OTHER;
     unit_of_measure := ST; categorization := []; short_description := [] |}.
Proof.
  intros E. unfold _simple_extraction, _create_fallback_info. now rewrite E.
Qed.

Lemma simple_extraction_cons text part0 rest : pipe_parts text = part0 :: rest ->
  _simple_extraction lower text =
  {| product_name := name_of lower part0; characteristics := rest;
     material_type := scan_types type_keywords (lower text);
     unit_of_measure := ST; categorization := [];
     short_description := simple_short_desc (name_of lower part0) rest |}.
Proof.
  intros E. unfold _simple_extraction. now rewrite E.
Qed.

Lemma simple_name_stripped text :
  stripped (product_name (_simple_extraction lower text)).
Proof.
  destruct (pipe_parts text) as [|part0 rest] eqn:E.
  - rewrite (simple_extraction_nil _ E). now split.
  - rewrite (simple_extraction_cons _ E). simpl. apply name_of_stripped.
    apply (pipe_parts_In text). rewrite E. now left.
Qed.

(** The test of the orchestrator, in the words of the rule. *)
Lemma too_basic_iff text :
  let r := _simple_extraction lower text in
  too_basic r = true <->
  characteristics r = [] \/ single_token (product_name r).
Proof.
  intros r. subst r. unfold too_basic.
  rewrite orb_true_iff, !Nat.eqb_eq, length_zero_iff_nil.
  now rewrite (one_token_iff (simple_name_stripped text)).
Qed.

End Names.

(** ** The orchestrator *)

Section Orchestrator.

Variable lower : pystr -> pystr.
Variable chat : nat -> pystr -> chat_outcome.
Variable json_loads : pystr -> option pyval.

Local Abbreviation simple := (_simple_extraction lower).
Local Abbreviation call_llm := (_call_llm_for_extraction chat json_loads).
Local Abbreviation extract := (_extract_with_fallback lower chat json_loads).
Local Abbreviation value := (attempt_value json_loads).

(** The two ways through [_extract_with_fallback]. *)
Lemma extract_cases text st :
  extract text st =
  if too_basic (simple text) then
    match call_llm text st with
    | (Ret v, st') => (Ret v, st')
    | (Raise _, st') =>
      (Ret (to_dict (_create_fallback_info lower text)), incr_llm_fallbacks st')
    end
  else (Ret (to_dict (simple text)), st).
Proof.
  unfold _extract_with_fallback, try_except.
  destruct (too_basic (simple text)); [|reflexivity].
  destruct (call_llm text st) as [[v|e] st']; reflexivity.
Qed.

(** The orchestrator raises nothing and stores no answer. *)
Lemma extract_returns text st :
  exists v st', extract text st = (Ret v, st') /\ answer_list st' = answer_list st.
Proof.
  rewrite extract_cases. destruct (too_basic (simple text)).
  - pose proof (llm_loop_frame chat json_loads (seq 0 max_retries) text st) as H.
    cbv zeta in H. fold (call_llm text st) in H.
    destruct (call_llm text st) as [[v|e] st']; simpl in H;
      eexists; eexists; (split; [reflexivity|]); simpl; tauto.
  - now eexists; eexists.
Qed.

(** C2. The orchestrator calls the service if and only if the heuristic
    result has no characteristic or a name of one token; with a
    characteristic and a name of several tokens it returns the heuristic
    result and calls nothing. *)
Theorem escalation_rule text st :
  let r := simple text in
  let run := extract text st in
  (chat_calls st < chat_calls (snd run)
   <-> characteristics r = [] \/ single_token (product_name r))
  /\ (characteristics r <> [] -> ~ single_token (product_name r) ->
      run = (Ret (to_dict r), st)).
Proof.
  intros r run. subst r run.
  pose proof (too_basic_iff lower text) as Hiff. cbv zeta in Hiff.
  rewrite <- Hiff, extract_cases.
  destruct (too_basic (simple text)) eqn:E.
  - split.
    + split; [reflexivity|]. intros _.
      pose proof (call_llm_first_attempt chat json_loads text st) as H.
      destruct (call_llm text st) as [[v|e] st']; exact H.
    + intros H1 H2. exfalso. destruct (proj1 Hiff eq_refl); tauto.
  - split; [|reflexivity].
    split; [simpl; lia|discriminate].
Qed.

(** C10. A text with no non-empty segment gives the empty structure; the
    orchestrator then calls the service from the state it was given, the
    fallback counter untouched, and counts a fallback only if that call
    fails. *)
Theorem blank_text_escalates text :
  pipe_parts text = [] ->
  simple text = EMPTY_INFO
  /\ forall st,
       let call := call_llm text st in
       let run := extract text st in
       chat_calls st < chat_calls (snd run)
       /\ llm_fallbacks (snd call) = llm_fallbacks st
       /\ run = match call with
                | (Ret v, st') => (Ret v, st')
                | (Raise _, st') => (Ret (to_dict EMPTY_INFO), incr_llm_fallbacks st')
                end.
Proof.
  intros E. pose proof (simple_extraction_nil lower _ E) as Hs.
  split; [exact Hs|]. intros st call run. subst call run.
  rewrite extract_cases, Hs. simpl too_basic. cbv iota.
  pose proof (call_llm_first_attempt chat json_loads text st) as H.
  pose proof (llm_loop_frame chat json_loads (seq 0 max_retries) text st) as Hf.
  cbv zeta in Hf. fold (call_llm text st) in Hf.
  assert (Hfb : _create_fallback_info lower text = EMPTY_INFO).
  { unfold _create_fallback_info. now rewrite E. }
  rewrite Hfb.
  destruct (call_llm text st) as [[v|e] st']; simpl in *; repeat split; tauto.
Qed.

(** C3. The retry loop makes at most three calls. It returns the value of
    the first attempt that succeeds and makes no further call; when all
    three fail it raises the all-attempts-failed error and counts one
    failure. [llm_calls] counts every attempt in which the service
    returned a message, parsed or not. Two connection errors and a success
    give three calls, [llm_calls] one more and no failure; three failures
    give one failure and, through the orchestrator, one fallback. *)
Theorem retry_accounting text st :
  let o k := chat (chat_calls st + k) (_create_llm_prompt text) in
  let call := call_llm text st in
  let st' := snd call in
  (chat_calls st < chat_calls st' <= chat_calls st + 3)
  /\ match value (o 0), value (o 1), value (o 2) with
     | Some v, _, _ =>
       fst call = Ret v /\ chat_calls st' = chat_calls st + 1
       /\ llm_calls st' = llm_calls st + 1
       /\ llm_errors st' = llm_errors st
     | None, Some v, _ =>
       fst call = Ret v /\ chat_calls st' = chat_calls st + 2
       /\ llm_calls st' = llm_calls st + responded (o 0) + 1
       /\ llm_errors st' = llm_errors st
     | None, None, Some v =>
       fst call = Ret v /\ chat_calls st' = chat_calls st + 3
       /\ llm_calls st' = llm_calls st + responded (o 0) + responded (o 1) + 1
       /\ llm_errors st' = llm_errors st
     | None, None, None =>
       fst call = Raise (RuntimeError ALL_FAILED)
       /\ chat_calls st' = chat_calls st + 3
       /\ llm_calls st' =
          llm_calls st + responded (o 0) + responded (o 1) + responded (o 2)
       /\ llm_errors st' = llm_errors st + 1
     end
  /\ (o 0 = ChatConnectionError -> o 1 = ChatConnectionError ->
      forall v, value (o 2) = Some v ->
      fst call = Ret v /\ chat_calls st' = chat_calls st + 3
      /\ llm_calls st' = llm_calls st + 1 /\ llm_errors st' = llm_errors st)
  /\ (too_basic (simple text) = true ->
      value (o 0) = None -> value (o 1) = None -> value (o 2) = None ->
      let st'' := snd (extract text st) in
      llm_errors st'' = llm_errors st + 1
      /\ llm_fallbacks st'' = llm_fallbacks st + 1
      /\ llm_calls st'' =
         llm_calls st + responded (o 0) + responded (o 1) + responded (o 2)).
Proof.
  intros o call st'.
  assert (Hmain :
    match value (o 0), value (o 1), value (o 2) with
    | Some v, _, _ =>
      fst call = Ret v /\ chat_calls st' = chat_calls st + 1
      /\ llm_calls st' = llm_calls st + 1
      /\ llm_errors st' = llm_errors st
    | None, Some v, _ =>
      fst call = Ret v /\ chat_calls st' = chat_calls st + 2
      /\ llm_calls st' = llm_calls st + responded (o 0) + 1
      /\ llm_errors st' = llm_errors st
    | None, None, Some v =>
      fst call = Ret v /\ chat_calls st' = chat_calls st + 3
      /\ llm_calls st' = llm_calls st + responded (o 0) + responded (o 1) + 1
      /\ llm_errors st' = llm_errors st
    | None, None, None =>
      fst call = Raise (RuntimeError ALL_FAILED)
      /\ chat_calls st' = chat_calls st + 3
      /\ llm_calls st' =
         llm_calls st + responded (o 0) + responded (o 1) + responded (o 2)
      /\ llm_errors st' = llm_errors st + 1
    end).
  { subst st' call o. unfold _call_llm_for_extraction. simpl seq. cbv beta.
    rewrite Nat.add_0_r.
    pose proof (llm_loop_step chat json_loads 0 [1; 2] text st) as H0.
    cbv zeta in H0.
    destruct (value (chat (chat_calls st) (_create_llm_prompt text))) as [v0|].
    { rewrite H0. simpl. repeat split; lia. }
    destruct H0 as (st1 & -> & _ & Hc1 & Hl1 & He1 & _).
    pose proof (llm_loop_step chat json_loads 1 [2] text st1) as H1.
    cbv zeta in H1. rewrite Hc1 in H1.
    destruct (value (chat (chat_calls st + 1) (_create_llm_prompt text))) as [v1|].
    { rewrite H1. simpl. repeat split; lia. }
    destruct H1 as (st2 & -> & _ & Hc2 & Hl2 & He2 & _).
    pose proof (llm_loop_step chat json_loads 2 [] text st2) as H2.
    cbv zeta in H2. rewrite Hc2 in H2.
    replace (chat_calls st + 1 + 1) with (chat_calls st + 2) in H2 by lia.
    destruct (value (chat (chat_calls st + 2) (_create_llm_prompt text))) as [v2|].
    { rewrite H2. simpl. repeat split; lia. }
    destruct H2 as (st3 & -> & _ & Hc3 & Hl3 & He3 & _).
    rewrite llm_loop_nil. simpl. repeat split; lia. }
  split; [|split; [exact Hmain|split]].
  - pose proof (call_llm_first_attempt chat json_loads text st) as H1.
    pose proof (llm_loop_frame chat json_loads (seq 0 max_retries) text st) as H2.
    cbv zeta in H2. simpl length in H2.
    exact (conj H1 (proj2 (proj2 (proj2 H2)))).
  - intros E0 E1 v E2. rewrite E0, E1, E2 in Hmain. simpl in Hmain.
    rewrite !Nat.add_0_r in Hmain. exact Hmain.
  - intros Hb E0 E1 E2 st''. rewrite E0, E1, E2 in Hmain.
    subst st''. rewrite extract_cases, Hb.
    assert (Hf : llm_fallbacks (snd call) = llm_fallbacks st)
      by exact (proj1 (proj2
           (llm_loop_frame chat json_loads (seq 0 max_retries) text st))).
    subst st'. fold call. destruct call as [[v|e] st1]; simpl in *.
    + destruct Hmain as [Hr _]. discriminate.
    + repeat split; lia.
Qed.

End Orchestrator.

(** ** The 40-character bound *)

Lemma slice_to_40 {A} (l : list A) : length (slice_to 40 l) <= 40.
Proof.
  unfold slice_to. change (0 <=? 40)%Z with true. cbv iota.
  change (Z.to_nat 40) with 40. apply firstn_le_length.
Qed.

Lemma slice_val_40 v d : slice_val 40 v = Ret d -> at_most_40 d.
Proof.
  destruct v; try discriminate; simpl; intros H; injection H as <-;
    eexists; (split; [reflexivity|]).
  - pose proof (slice_to_40 s). lia.
  - pose proof (slice_to_40 l). lia.
Qed.

Lemma standardized_at_most_40 info d :
  _create_standardized_description info = Ret d -> at_most_40 (fst d).
Proof.
  destruct info as [| | | | | |info]; try discriminate.
  unfold _create_standardized_description.
  assert (Hc : forall d,
    (r <~ fallback_construction info ;;
     desc <~ slice_val 40 (fst r) ;; Ret (desc, PyDict (snd r)))%py = Ret d ->
    at_most_40 (fst d)).
  { intros d0. destruct (fallback_construction info) as [r|e]; [|discriminate].
    simpl. destruct (slice_val 40 (fst r)) as [desc|e] eqn:E; [|discriminate].
    simpl. intros H. injection H as <-. exact (slice_val_40 _ E). }
  destruct (truthy (dict_get K_short_description info)); [|apply Hc].
  destruct (getitem K_short_description info) as [desc|e]; [|discriminate].
  simpl. destruct (py_len desc) as [n|e] eqn:En; [|discriminate].
  simpl. destruct (n <=? 40)%Z eqn:E40; [|apply Hc].
  intros H. injection H as <-. exists n. split; [exact En|]. now apply Z.leb_le.
Qed.

Lemma simple_short_desc_length name chars :
  length (simple_short_desc name chars) <= 40.
Proof. apply slice_to_40. Qed.

(** ** The batch loop *)

Section Batch.

Variable lower : pystr -> pystr.
Variable chat : nat -> pystr -> chat_outcome.
Variable json_loads : pystr -> option pyval.
Variable exn_str : pyexn -> pystr.

Local Abbreviation extract := (_extract_with_fallback lower chat json_loads).
Local Abbreviation body := (row_body lower chat json_loads).
Local Abbreviation process := (process_row lower chat json_loads exn_str).
Local Abbreviation run := (process_materials lower chat json_loads exn_str).

(** What the [try] body of a row does. *)
Lemma row_body_cases text cleaned st :
  match cleaned with
  | [] => body text cleaned st = (Ret tt, st)
  | _ =>
    exists info st1,
      extract cleaned st = (Ret info, st1)
      /\ answer_list st1 = answer_list st
      /\ body text cleaned st =
         match _create_standardized_description info with
         | Ret d => (Ret tt, add_answer (row_answer text cleaned d) st1)
         | Raise e => (Raise e, st1)
         end
  end.
Proof.
  destruct cleaned as [|c cleaned]; [reflexivity|].
  destruct (extract_returns lower chat json_loads (c :: cleaned) st)
    as (info & st1 & He & Ha).
  exists info, st1. split; [exact He|]. split; [exact Ha|].
  unfold row_body, bind, lift, modify. rewrite He.
  destruct (_create_standardized_description info); reflexivity.
Qed.

(** A row never raises; it stores nothing, its answer, or the error entry. *)
Lemma process_row_cases r st :
  let text := row_text r in
  let cleaned := _preprocess_text (PyStr text) in
  exists st',
    process r st = (Ret tt, st')
    /\ (st' = st
        \/ (exists d st1, answer_list st1 = answer_list st
              /\ at_most_40 (fst d)
              /\ st' = add_answer (row_answer text cleaned d) st1)
        \/ (exists e st1, answer_list st1 = answer_list st
              /\ body text cleaned st = (Raise e, st1)
              /\ st' = add_answer (error_answer exn_str text cleaned e) st1)).
Proof.
  intros text cleaned. unfold process_row, try_except. fold text. fold cleaned.
  pose proof (row_body_cases text cleaned st) as H.
  destruct cleaned as [|c cleaned'] eqn:Ec.
  - rewrite H. exists st. split; [reflexivity|now left].
  - destruct H as (info & st1 & _ & Ha & ->).
    destruct (_create_standardized_description info) as [d|e] eqn:Ed.
    + eexists. split; [reflexivity|]. right. left. exists d, st1.
      repeat split; [exact Ha|exact (standardized_at_most_40 _ Ed)].
    + eexists. split; [reflexivity|]. right. right. exists e, st1.
      repeat split. exact Ha.
Qed.

Lemma process_materials_cons r rest st :
  run (r :: rest) st = run rest (snd (process r st)).
Proof.
  unfold process_materials. simpl. unfold bind.
  destruct (process_row_cases r st) as (st' & -> & _). reflexivity.
Qed.



End Batch.

Section BatchTheorems.

Variable lower : pystr -> pystr.
Variable chat : nat -> pystr -> chat_outcome.
Variable json_loads : pystr -> option pyval.
Variable exn_str : pyexn -> pystr.

Local Abbreviation body := (row_body lower chat json_loads).
Local Abbreviation process := (process_row lower chat json_loads exn_str).
Local Abbreviation run := (process_materials lower chat json_loads exn_str).



End BatchTheorems.

(** ** Classification *)

Lemma starts_with_prefix p s : starts_with p (p ++ s) = true.
Proof.
  induction p as [|a p IH]; [reflexivity|].
  simpl. now rewrite N.eqb_refl.
Qed.

Lemma contains_unfold kw s :
  contains kw s =
  starts_with kw s || match s with [] => false | _ :: s' => contains kw s' end.
Proof. destruct s; reflexivity. Qed.

Lemma contains_iff kw s : contains kw s = true <-> occurs kw s.
Proof.
  split.
  - induction s as [|c s IH]; rewrite contains_unfold, orb_true_iff.
    + intros [H|H]; [|discriminate].
      exists [], (skipn (length kw) []). exact (starts_with_app _ _ H).
    + intros [H|H].
      * exists [], (skipn (length kw) (c :: s)). exact (starts_with_app _ _ H).
      * destruct (IH H) as (pre & post & ->). now exists (c :: pre), post.
  - intros (pre & post & ->). induction pre as [|c pre IH].
    + rewrite contains_unfold. simpl app. now rewrite starts_with_prefix.
    + change ((c :: pre) ++ kw ++ post) with (c :: (pre ++ kw ++ post)).
      rewrite contains_unfold, IH. apply orb_true_r.
Qed.

Lemma existsb_matches keywords low :
  existsb (fun kw => contains kw low) keywords = true <-> matches keywords low.
Proof.
  rewrite existsb_exists. unfold matches.
  split; intros (kw & Hin & H); exists kw; (split; [exact Hin|]);
    now apply contains_iff.
Qed.

(** The loop returns the type of the first entry that matches, and
    ["other"] when none does. *)
Lemma scan_types_first table low :
  (forall before ty keywords after,
     table = before ++ (ty, keywords) :: after ->
     (forall e, In e before -> ~ matches (snd e) low) ->
     matches keywords low ->
     scan_types table low = ty)
  /\ ((forall e, In e table -> ~ matches (snd e) low) ->
      scan_types table low = OTHER).
Proof.
  induction table as [|[ty0 kws0] table [IH1 IH2]]; split.
  - intros [|? ?] ? ? ? H; discriminate.
  - reflexivity.
  - intros before ty keywords after Heq Hbefore Hm. simpl.
    destruct before as [|e before].
    + simpl in Heq. inversion Heq; subst.
      now rewrite (proj2 (existsb_matches keywords low) Hm).
    + simpl in Heq. inversion Heq; subst.
      destruct (existsb _ kws0) eqn:E.
      * exfalso. apply (Hbefore (ty0, kws0)); [now left|].
        now apply existsb_matches.
      * apply (IH1 before ty keywords after eq_refl); [|exact Hm].
        intros e He. apply Hbefore. now right.
  - intros Hnone. simpl.
    destruct (existsb _ kws0) eqn:E.
    + exfalso. apply (Hnone (ty0, kws0)); [now left|].
      now apply existsb_matches.
    + apply IH2. intros e He. apply Hnone. now right.
Qed.

(** *** A text without segments has only whitespace and pipes *)

Lemma drop_while_nil s :
  drop_while is_space s = [] -> Forall (fun c => is_space c = true) s.
Proof.
  induction s as [|c s IH]; [constructor|].
  simpl. destruct (is_space c) eqn:E; [|discriminate].
  intros H. constructor; [exact E|exact (IH H)].
Qed.

Lemma strip_nil s : strip s = [] -> Forall (fun c => is_space c = true) s.
Proof.
  unfold strip, rstrip, lstrip. intros H.
  apply (f_equal (@rev cp)) in H. rewrite rev_involutive in H. simpl in H.
  apply drop_while_nil, Forall_rev in H. rewrite rev_involutive in H.
  pose proof (drop_while_starts s) as Hs.
  destruct (drop_while is_space s) as [|c t] eqn:E.
  - now apply drop_while_nil.
  - inversion H as [|? ? Hc _]. simpl in Hs. congruence.
Qed.

Lemma split_on_blank s :
  Forall (Forall (fun c => is_space c = true)) (split_on PIPE s) ->
  Forall blank s.
Proof.
  induction s as [|x s IH]; [constructor|]. simpl.
  destruct (N.eqb_spec x PIPE) as [->|Hx].
  - intros H. inversion H; subst. constructor; [now right|now apply IH].
  - destruct (split_on PIPE s) as [|seg rest].
    + intros H. inversion H as [|? ? Hx' _]. inversion Hx'; subst.
      constructor; [now left|]. apply IH. constructor.
    + intros H. inversion H as [|? ? Hseg Hrest]. inversion Hseg; subst.
      constructor; [now left|]. apply IH. now constructor.
Qed.

Lemma pipe_parts_nil text : pipe_parts text = [] -> Forall blank text.
Proof.
  unfold pipe_parts. intros H. apply split_on_blank.
  apply Forall_forall. intros seg Hseg. apply strip_nil.
  destruct (strip seg) as [|c t] eqn:E; [reflexivity|exfalso].
  assert (Hin : In (c :: t) (filter (fun p => negb (pystr_eqb p []))
                                    (map strip (split_on PIPE text)))).
  { apply filter_In. split; [|reflexivity].
    rewrite <- E. now apply in_map. }
  rewrite H in Hin. exact Hin.
Qed.

Lemma blankb_iff c : blankb c = true <-> blank c.
Proof.
  unfold blankb, blank. rewrite orb_true_iff, N.eqb_eq. reflexivity.
Qed.

(** No keyword of the table is made of whitespace and pipes. *)
Lemma keywords_not_blank :
  forallb (fun e => forallb (fun kw => negb (forallb blankb kw)) (snd e))
          type_keywords = true.
Proof. reflexivity. Qed.

Lemma blank_no_match text e :
  Forall blank text -> In e type_keywords -> ~ matches (snd e) text.
Proof.
  intros Hblank He (kw & Hkw & pre & post & Heq).
  pose proof keywords_not_blank as H.
  rewrite forallb_forall in H. specialize (H e He).
  rewrite forallb_forall in H. specialize (H kw Hkw).
  apply negb_true_iff in H.
  assert (Hall : forallb blankb kw = true).
  { apply forallb_forall. intros c Hc. apply blankb_iff.
    rewrite Forall_forall in Hblank. apply Hblank. rewrite Heq.
    apply in_or_app. right. apply in_or_app. now left. }
  congruence.
Qed.

(** On a text [lower] and [lower'] lower alike, segments included, the
    heuristic extractor does the same with both. *)
Lemma simple_extraction_ext lower lower' text :
  lower text = lower' text ->
  (forall p, In p (pipe_parts text) -> lower p = lower' p) ->
  _simple_extraction lower text = _simple_extraction lower' text.
Proof.
  intros Ht Hp. unfold _simple_extraction, _create_fallback_info.
  destruct (pipe_parts text) as [|part0 rest]; [reflexivity|].
  unfold name_of. rewrite Ht, (Hp part0); [reflexivity|now left].
Qed.

Lemma simple_extraction_latin1 lower text :
  lowers_latin1 lower ->
  latin1 text = true -> forallb latin1 (pipe_parts text) = true ->
  _simple_extraction lower text = _simple_extraction lower_latin1 text.
Proof.
  intros Hl Ht Hp. apply simple_extraction_ext; [exact (Hl _ Ht)|].
  intros p Hin. apply Hl. rewrite forallb_forall in Hp. now apply Hp.
Qed.

(** C6. The material type is the type of the first entry of the table
    (filter, electrical, mechanical, seal, in this order) one of whose
    keywords occurs in the lowercased text, and ["other"] when no keyword
    occurs: for every [lower] that leaves whitespace and pipes as they
    are. The text of the coil contactor is electrical, for every [lower]
    that lowers Latin-1 text as [str.lower] does. *)
Theorem classification_first_match :
  map fst type_keywords
  = [py "filter"; py "electrical"; py "mechanical"; py "seal"]
  /\ (forall lower : pystr -> pystr,
      (forall s, Forall blank s -> lower s = s) ->
      forall text,
        let ty := material_type (_simple_extraction lower text) in
        let low := lower text in
        (forall before t keywords after,
           type_keywords = before ++ (t, keywords) :: after ->
           (forall e, In e before -> ~ matches (snd e) low) ->
           matches keywords low ->
           ty = t)
        /\ ((forall e, In e type_keywords -> ~ matches (snd e) low) ->
            ty = OTHER))
  /\ (forall lower : pystr -> pystr,
      lowers_latin1 lower ->
      material_type
        (_simple_extraction lower
           (py "Siemens Schütz | Spulensp. 230V, 50HZ/AC | Leistung 45,0 KW/400V"))
      = py "electrical").
Proof.
  split; [reflexivity|split].
  - intros lower Hlower text ty low. subst ty low.
    destruct (pipe_parts text) as [|part0 rest] eqn:E.
    + rewrite (simple_extraction_nil lower _ E). simpl.
      pose proof (pipe_parts_nil _ E) as Hb. rewrite (Hlower _ Hb). split.
      * intros before t keywords after Heq _ Hm. exfalso.
        apply (@blank_no_match text (t, keywords) Hb); [|exact Hm].
        rewrite Heq. apply in_or_app. right. now left.
      * reflexivity.
    + rewrite (simple_extraction_cons lower _ E). simpl.
      apply scan_types_first.
  - intros lower Hl.
    rewrite (simple_extraction_latin1 _ Hl); reflexivity.
Qed.

(** ** The product name *)

Lemma strip_nonempty s : s <> [] -> starts_ws (rev s) = false -> strip s <> [].
Proof.
  intros Hne Hend H. apply strip_nil in H.
  rewrite (all_ws_rev H Hne) in Hend. discriminate.
Qed.

(** C9, as the code has it. For a text with a non-empty segment the heuristic
    extractor and the fallback builder give the same, non-empty name: the
    first segment, without its first four characters and trimmed when it
    starts with [für ] in any case. For a text without such a segment
    both give the empty name. [lower] is any function whose result starts
    with [für ] only on a text with a space in fourth place. *)
Theorem product_name_rule (lower : pystr -> pystr) :
  (forall p, starts_with FUER (lower p) = true -> nth_error p 3 = Some SPACE) ->
  forall text,
    let simple := _simple_extraction lower text in
    let fallback := _create_fallback_info lower text in
    match pipe_parts text with
    | [] => product_name simple = [] /\ product_name fallback = []
    | part0 :: _ =>
      product_name fallback = product_name simple
      /\ product_name simple <> []
      /\ product_name simple =
         if starts_with FUER (lower part0)
         then strip (skipn 4 part0) else part0
    end.
Proof.
  intros Hfur text simple fallback. subst simple fallback.
  unfold _simple_extraction, _create_fallback_info.
  destruct (pipe_parts text) as [|part0 rest] eqn:E; [now split|].
  simpl. split; [reflexivity|]. split; [|reflexivity].
  assert (Hin : In part0 (pipe_parts text)) by (rewrite E; now left).
  destruct (pipe_parts_In _ _ Hin) as [Hne [_ Hend]].
  unfold name_of. destruct (starts_with FUER (lower part0)) eqn:Ef; [|exact Hne].
  specialize (Hfur _ Ef).
  destruct part0 as [|a [|b [|c [|d tl]]]]; try discriminate.
  injection Hfur as ->. change (skipn 4 (a :: b :: c :: SPACE :: tl)) with tl.
  change (rev (a :: b :: c :: SPACE :: tl))
    with ((((rev tl ++ [SPACE]) ++ [c]) ++ [b]) ++ [a]) in Hend.
  rewrite <- !app_assoc in Hend.
  destruct tl as [|t tl]; [discriminate|].
  apply strip_nonempty; [discriminate|].
  exact (starts_ws_app_l _ _ Hend).
Qed.

(** *** [lower_latin1] satisfies what the theorems ask of [lower] *)

Lemma lower_cp_space c : lower_cp c = SPACE -> c = SPACE.
Proof.
  unfold lower_cp, SPACE.
  destruct ((65 <=? c) && (c <=? 90)
            || (192 <=? c) && (c <=? 222) && negb (c =? 215))%N eqn:E;
    [|now intros].
  intros H. exfalso.
  apply orb_true_iff in E. destruct E as [E|E].
  - apply andb_true_iff in E. destruct E as [E _]. apply N.leb_le in E. lia.
  - apply andb_true_iff in E. destruct E as [E _].
    apply andb_true_iff in E. destruct E as [E _]. apply N.leb_le in E. lia.
Qed.

Lemma lower_latin1_fuer p :
  starts_with FUER (lower_latin1 p) = true -> nth_error p 3 = Some SPACE.
Proof.
  intros H. apply starts_with_app in H.
  destruct p as [|a [|b [|c [|d tl]]]]; try discriminate.
  simpl in H. injection H as _ _ _ Hd. simpl. f_equal.
  apply lower_cp_space. now symmetry.
Qed.

Lemma is_space_cases c : is_space c = true ->
  (c <= 32 \/ c = 133 \/ c = 160 \/ 5760 <= c)%N.
Proof.
  unfold is_space. rewrite !orb_true_iff, !andb_true_iff, !N.leb_le, !N.eqb_eq.
  lia.
Qed.

Lemma lower_cp_blank c : blank c -> lower_cp c = c.
Proof.
  intros Hc. unfold lower_cp.
  destruct ((65 <=? c) && (c <=? 90)
            || (192 <=? c) && (c <=? 222) && negb (c =? 215))%N eqn:E;
    [exfalso|reflexivity].
  assert (Hr : (65 <= c <= 90 \/ 192 <= c <= 222)%N).
  { rewrite orb_true_iff, !andb_true_iff, !N.leb_le in E. lia. }
  destruct Hc as [Hc| ->]; [apply is_space_cases in Hc; lia|].
  unfold PIPE in Hr. lia.
Qed.

Lemma lower_latin1_blank s : Forall blank s -> lower_latin1 s = s.
Proof.
  induction 1 as [|c s Hc _ IH]; [reflexivity|].
  simpl. now rewrite (lower_cp_blank Hc), IH.
Qed.

(** * The theorems on sample inputs *)

(** C7. The heuristic extractor on the text of the water filter, for
    every [lower] that lowers Latin-1 text as [str.lower] does: the name
    without its [für ], the two characteristics in the order of the text,
    and the type filter. The text is a normalised one. *)
Theorem apic_extraction (lower : pystr -> pystr) :
  lowers_latin1 lower ->
  let text := py "für APIC Wasserfilter FMA 9000 | Ref: 9000/CPF01/230/VH | Pos. 48" in
  let r := _simple_extraction lower text in
  _preprocess_text (PyStr text) = text
  /\ product_name r = py "APIC Wasserfilter FMA 9000"
  /\ characteristics r = [py "Ref: 9000/CPF01/230/VH"; py "Pos. 48"]
  /\ material_type r = py "filter".
Proof.
  intros Hl text r. subst r text.
  rewrite (simple_extraction_latin1 _ Hl); [|reflexivity|reflexivity].
  vm_compute. repeat split.
Qed.

(** C4. With a name of 36 characters the two constructions part: 3
    characters remain, [_simple_extraction] asks for more than 3 and
    appends nothing, [_create_standardized_description] asks for 3 and
    appends a space and 3 characters. *)
Theorem truncation_thresholds_differ :
  let name := py "Hydraulikzylinder doppeltwirkend 100" in
  let char := py "Hub 250 mm" in
  let info := _simple_extraction lower_latin1 (name ++ py " | " ++ char) in
  let rebuilt := _create_standardized_description
    (PyDict [ (K_product_name, PyStr (product_name info));
              (K_characteristics, PyList (map PyStr (characteristics info))) ]) in
  product_name info = name
  /\ characteristics info = [char]
  /\ (40 - len name - 1 = 3)%Z
  /\ short_description info = name
  /\ exists d, rebuilt = Ret d
       /\ fst d = PyStr (py "Hydraulikzylinder doppeltwirkend 100 Hub").
Proof.
  vm_compute. repeat split. eexists. split; reflexivity.
Qed.

(** The same for every name of 36 characters and first characteristic of
    4 or more. *)
Lemma thresholds_differ_at_36 name char rest :
  length name = 36 -> 4 <= length char ->
  simple_short_desc name (char :: rest) = name
  /\ fallback_construction
       [ (K_product_name, PyStr name);
         (K_characteristics, PyList (map PyStr (char :: rest))) ]
     = Ret (PyStr (name ++ SPACE :: firstn 3 char),
            [ (K_product_name, PyStr name);
              (K_characteristics, PyList (map PyStr (char :: rest))) ]).
Proof.
  intros Hn Hc. split.
  - unfold simple_short_desc, len. rewrite Hn.
    destruct (Z.leb_spec (Z.of_nat 36 + 1 + Z.of_nat (length char)) 40); [lia|].
    change (40 - Z.of_nat 36 - 1 >? 3)%Z with false. cbv iota.
    unfold slice_to. change (0 <=? 40)%Z with true. cbv iota.
    apply firstn_all2. change (Z.to_nat 40) with 40. lia.
  - unfold fallback_construction, getitem.
    change (dict_lookup K_product_name _) with (Some (PyStr name)).
    change (dict_lookup K_characteristics _)
      with (Some (PyList (map PyStr (char :: rest)))).
    cbn [obind truthy map length Nat.eqb negb index0 py_len].
    rewrite Hn.
    destruct (Z.leb_spec (Z.of_nat 36 + 1 + Z.of_nat (length char)) 40); [lia|].
    change (40 - Z.of_nat 36 - 1 >=? 3)%Z with true. cbv iota.
    change (40 - Z.of_nat 36 - 1)%Z with 3%Z.
    reflexivity.
Qed.

(** Away from a name of 36 characters the two constructions agree: the
    description rebuilt from a name and characteristics is the short
    description of [_simple_extraction]. *)
Lemma constructions_agree name chars :
  (length name = 36 ->
   match chars with
   | char :: _ => length char < 4
   | [] => True
   end) ->
  (r <~ fallback_construction
          [ (K_product_name, PyStr name);
            (K_characteristics, PyList (map PyStr chars)) ] ;;
   slice_val 40 (fst r))%py
  = Ret (PyStr (simple_short_desc name chars)).
Proof.
  intros H36. unfold fallback_construction, getitem.
  change (dict_lookup K_product_name _) with (Some (PyStr name)).
  change (dict_lookup K_characteristics _)
    with (Some (PyList (map PyStr chars))).
  unfold simple_short_desc, len.
  destruct chars as [|char rest]; [reflexivity|].
  cbn [obind truthy map length Nat.eqb negb index0 py_len].
  destruct (Z.leb_spec (Z.of_nat (length name) + 1 + Z.of_nat (length char)) 40)
    as [Hfit|Hfit]; [reflexivity|].
  rewrite Z.geb_leb, Z.gtb_ltb.
  destruct (Z.leb_spec 3 (40 - Z.of_nat (length name) - 1)) as [H3|H3];
    destruct (Z.ltb_spec 3 (40 - Z.of_nat (length name) - 1)) as [H4|H4];
    try reflexivity; simpl in H36; lia.
Qed.

(** *** Witnesses *)

(** [escalation_rule] on the text of the contactor: two
    characteristics and a name of two tokens, so no call, even of a
    service that is down. *)
Lemma escalation_rule_witness :
  _extract_with_fallback lower_latin1 chat_down sample_json TEXT_SIEMENS init
  = (Ret (to_dict (_simple_extraction lower_latin1 TEXT_SIEMENS)), init).
Proof.
  apply (proj2 (escalation_rule lower_latin1 chat_down sample_json
                  TEXT_SIEMENS init)).
  - vm_compute. discriminate.
  - intros [_ H]. rewrite Forall_forall in H.
    assert (Hin : In SPACE (product_name
                              (_simple_extraction lower_latin1 TEXT_SIEMENS)))
      by (vm_compute; repeat (try (left; reflexivity); right)).
    specialize (H _ Hin). discriminate.
Defined.

(** [blank_text_escalates] on the text of one pipe. *)
Lemma blank_text_escalates_witness :
  pipe_parts (py "|") = []
  /\ _simple_extraction lower_latin1 (py "|") = EMPTY_INFO
  /\ chat_calls init
     < chat_calls (snd (_extract_with_fallback lower_latin1 chat_down
                          sample_json (py "|") init)).
Proof.
  split; [reflexivity|].
  destruct (blank_text_escalates lower_latin1 chat_down sample_json (py "|")
              eq_refl) as [H1 H2].
  split; [exact H1|exact (proj1 (H2 init))].
Defined.

(** [retry_accounting] with a service that refuses two connections and
    then sends the empty object, and with a service that is down. *)
Lemma retry_accounting_witness :
  (let call := _call_llm_for_extraction chat_flaky sample_json TEXT_PUMPE init in
   fst call = Ret (PyDict []) /\ chat_calls (snd call) = 3
   /\ llm_calls (snd call) = 1 /\ llm_errors (snd call) = 0)
  /\ (let st := snd (_extract_with_fallback lower_latin1 chat_down sample_json
                       TEXT_PUMPE init) in
      llm_errors st = 1 /\ llm_fallbacks st = 1 /\ llm_calls st = 0).
Proof.
  split.
  - exact (proj1 (proj2 (proj2
      (retry_accounting lower_latin1 chat_flaky sample_json TEXT_PUMPE init)))
      eq_refl eq_refl (PyDict []) eq_refl).
  - exact (proj2 (proj2 (proj2
      (retry_accounting lower_latin1 chat_down sample_json TEXT_PUMPE init)))
      eq_refl eq_refl eq_refl eq_refl).
Defined.


(** [classification_first_match] and [apic_extraction] with
    [lower_latin1]. *)
Lemma lower_latin1_lowers : lowers_latin1 lower_latin1.
Proof. intros s _. reflexivity. Qed.

Lemma classification_first_match_witness :
  material_type (_simple_extraction lower_latin1 TEXT_APIC) = py "filter"
  /\ material_type (_simple_extraction lower_latin1 TEXT_SIEMENS)
     = py "electrical".
Proof.
  split.
  - refine (proj1 (proj1 (proj2 classification_first_match) lower_latin1
              lower_latin1_blank TEXT_APIC)
            [] (py "filter") [py "filter"; py "wasserfilter"]
            (tl type_keywords) eq_refl _ _).
    + intros e [].
    + exists (py "filter"). split; [now left|].
      apply contains_iff. reflexivity.
  - exact (proj2 (proj2 classification_first_match) lower_latin1
             lower_latin1_lowers).
Defined.

Lemma apic_extraction_witness :
  product_name (_simple_extraction lower_latin1 TEXT_APIC)
  = py "APIC Wasserfilter FMA 9000"
  /\ characteristics (_simple_extraction lower_latin1 TEXT_APIC)
     = [py "Ref: 9000/CPF01/230/VH"; py "Pos. 48"]
  /\ material_type (_simple_extraction lower_latin1 TEXT_APIC) = py "filter".
Proof.
  exact (proj2 (apic_extraction lower_latin1_lowers)).
Defined.

(** [product_name_rule] with [lower_latin1], on the text of the water
    filter. *)
Lemma product_name_rule_witness :
  product_name (_simple_extraction lower_latin1 TEXT_APIC) <> []
  /\ product_name (_simple_extraction lower_latin1 TEXT_APIC)
     = strip (skipn 4 (py "für APIC Wasserfilter FMA 9000")).
Proof.
  exact (proj2 (product_name_rule lower_latin1 lower_latin1_fuer TEXT_APIC)).
Defined.

(** *** Counterexamples *)


(** C3, as stated, fails: three replies without JSON are three failures,
    and [llm_calls] has counted each of them. *)
Lemma parse_failures_are_counted :
  let o k := chat_prose k (_create_llm_prompt TEXT_PUMPE) in
  let call := _call_llm_for_extraction chat_prose sample_json TEXT_PUMPE init in
  attempt_value sample_json (o 0) = None
  /\ attempt_value sample_json (o 1) = None
  /\ attempt_value sample_json (o 2) = None
  /\ fst call = Raise (RuntimeError ALL_FAILED)
  /\ llm_errors (snd call) = 1
  /\ llm_calls (snd call) = 3
  /\ llm_calls (snd call) <> 0.
Proof. vm_compute. repeat split. discriminate. Qed.

(** C9, as stated, fails: the text of one pipe is normalised, not empty,
    and the heuristic extractor and the fallback builder give it the
    empty name. *)
Lemma empty_product_name :
  _preprocess_text (PyStr (py "|")) = py "|"
  /\ product_name (_simple_extraction lower_latin1 (py "|")) = []
  /\ product_name (_create_fallback_info lower_latin1 (py "|")) = [].
Proof. vm_compute. repeat split. Qed.

(** * Further properties of the code *)

(** ** [_preprocess_text] *)

Lemma single_spaced_spaces s :
  single_spaced s -> Forall (fun c => is_space c = true -> c = SPACE) s.
Proof.
  induction s as [|c s IH]; [constructor|].
  intros [Hc Hs]. constructor; [|exact (IH Hs)].
  intros H. exact (proj1 (Hc H)).
Qed.

Lemma single_spaced_no_double s : single_spaced s -> ~ occurs [SPACE; SPACE] s.
Proof.
  intros Hs (pre & post & ->).
  apply (tail_closed_app single_spaced_tail) in Hs.
  destruct Hs as [Hc _]. destruct (Hc eq_refl) as [_ H]. discriminate.
Qed.

Lemma no_dslash_occurs s : no_dslash s -> ~ occurs DSLASH s.
Proof.
  intros Hs (pre & post & ->).
  apply (tail_closed_app no_dslash_tail) in Hs.
  destruct Hs as [Hc _]. exact (Hc eq_refl eq_refl).
Qed.

(** X1. The text [_preprocess_text] returns has no whitespace but single
    spaces: every whitespace character of it is the space, no two spaces
    follow each other, none stands at either end; and it has no double
    slash. *)
Theorem preprocess_shape (s : pystr) :
  let out := _preprocess_text (PyStr s) in
  Forall (fun c => is_space c = true -> c = SPACE) out
  /\ ~ occurs [SPACE; SPACE] out
  /\ ~ occurs DSLASH out
  /\ starts_ws out = false
  /\ starts_ws (rev out) = false.
Proof.
  intros out. destruct (preprocess_normal s) as [H1 H2 H3 H4].
  repeat split.
  - now apply single_spaced_spaces.
  - now apply single_spaced_no_double.
  - now apply no_dslash_occurs.
  - exact H3.
  - exact H4.
Qed.

Lemma has_ink_false s :
  has_ink s = false <-> Forall (fun c => is_space c = true) s.
Proof.
  unfold has_ink. induction s as [|c s IH]; simpl.
  - split; [constructor|reflexivity].
  - rewrite orb_false_iff, negb_false_iff, IH. split.
    + intros [H1 H2]. now constructor.
    + intros H. inversion H. now split.
Qed.

Lemma has_ink_app a b : has_ink (a ++ b) = has_ink a || has_ink b.
Proof. apply existsb_app. Qed.

Lemma split_ws_blank s :
  Forall (fun c => is_space c = true) s -> split_ws_aux [] s = [].
Proof.
  induction 1 as [|c s Hc _ IH]; [reflexivity|]. simpl. now rewrite Hc.
Qed.

(** The tokens of [split] are not empty and have no whitespace. *)
Lemma split_ws_aux_tokens s : forall cur,
  has_ink cur = true \/ cur = [] ->
  Forall (fun t => has_ink t = true) (split_ws_aux cur s).
Proof.
  assert (Hrev : forall cur, has_ink (rev cur) = has_ink cur).
  { intros cur. unfold has_ink. induction cur as [|c cur IH]; [reflexivity|].
    simpl. rewrite existsb_app, IH. simpl. rewrite orb_false_r. apply orb_comm. }
  induction s as [|c s IH]; intros cur Hcur; simpl.
  - destruct cur as [|x cur]; [constructor|].
    destruct Hcur as [Hcur|Hcur]; [|discriminate].
    constructor; [|constructor]. now rewrite (Hrev (x :: cur)).
  - destruct (is_space c) eqn:Ec.
    + destruct cur as [|x cur]; [apply IH; now right|].
      destruct Hcur as [Hcur|Hcur]; [|discriminate].
      constructor; [now rewrite (Hrev (x :: cur))|apply IH; now right].
    + apply IH. left. simpl. now rewrite Ec.
Qed.

Lemma join_ink sep l :
  l <> [] -> Forall (fun t => has_ink t = true) l -> has_ink (join sep l) = true.
Proof.
  destruct l as [|x l]; [congruence|]. intros _ H. inversion H as [|? ? Hx _].
  simpl. destruct l; [exact Hx|]. now rewrite has_ink_app, Hx.
Qed.

Lemma drop_while_ink s : has_ink (drop_while is_space s) = has_ink s.
Proof.
  induction s as [|c s IH]; [reflexivity|].
  simpl drop_while. destruct (is_space c) eqn:Ec; [|reflexivity].
  rewrite IH. unfold has_ink. simpl. now rewrite Ec.
Qed.

(** The scan keeps a text inked when each match leaves ink in what is
    written or in what follows. *)
Lemma sub_ink m repl :
  consuming m ->
  (forall t rest, m t = Some rest -> has_ink t = true ->
                  has_ink repl = true \/ has_ink rest = true) ->
  forall s, has_ink s = true -> has_ink (sub m repl s) = true.
Proof.
  intros Hm Hink s.
  remember (length s) as n eqn:Hn.
  revert s Hn. induction n as [n IH] using lt_wf_ind. intros s Hn Hs.
  destruct s as [|c s]; [discriminate|].
  rewrite sub_cons by exact Hm.
  destruct (m (c :: s)) as [rest|] eqn:E.
  - pose proof (consuming_length Hm _ E) as Hlen.
    rewrite has_ink_app. apply orb_true_iff.
    destruct (Hink _ _ E Hs) as [H|H]; [now left|right].
    apply (IH (length rest)); [subst n; exact Hlen|reflexivity|exact H].
  - change (has_ink (c :: sub m repl s))
      with (negb (is_space c) || has_ink (sub m repl s)).
    change (has_ink (c :: s)) with (negb (is_space c) || has_ink s) in Hs.
    apply orb_true_iff in Hs. apply orb_true_iff.
    destruct Hs as [Hs|Hs]; [now left|right].
    apply (IH (length s)); [subst n; simpl; lia|reflexivity|exact Hs].
Qed.

Lemma preprocess_ink s :
  has_ink s = true -> has_ink (_preprocess_text (PyStr s)) = true.
Proof.
  intros Hs. unfold _preprocess_text, strip, rstrip, lstrip.
  assert (Hrev : forall t, has_ink (rev t) = has_ink t).
  { intros t. unfold has_ink. induction t as [|c t IH]; [reflexivity|].
    simpl. rewrite existsb_app, IH. simpl. rewrite orb_false_r. apply orb_comm. }
  rewrite Hrev, drop_while_ink, Hrev, drop_while_ink.
  apply sub_ink; [exact m_ws_consuming| |].
  { intros t rest H Ht. right.
    destruct (m_ws_inv _ H) as (c & s' & -> & Hc & ->).
    rewrite drop_while_ink. simpl in Ht. now rewrite Hc in Ht. }
  apply sub_ink; [exact m_sep_consuming|intros; now left|].
  apply sub_ink; [apply m_lit_consuming; discriminate|intros; now left|].
  apply join_ink.
  - unfold split_ws. intros E. destruct (split_ws_aux_nil _ _ E) as [_ H].
    apply has_ink_false in H. congruence.
  - apply split_ws_aux_tokens. now right.
Qed.

Lemma preprocess_blank s :
  Forall (fun c => is_space c = true) s -> _preprocess_text (PyStr s) = [].
Proof.
  intros H. unfold _preprocess_text, split_ws. now rewrite (split_ws_blank H).
Qed.

Lemma preprocess_has_ink s : has_ink (_preprocess_text (PyStr s)) = has_ink s.
Proof.
  destruct (has_ink s) eqn:E; [now apply preprocess_ink|].
  apply has_ink_false in E. now rewrite (preprocess_blank E).
Qed.

Lemma cleaned_nil_iff text :
  _preprocess_text (PyStr text) = [] <-> has_ink text = false.
Proof.
  split.
  - intros E. rewrite <- preprocess_has_ink, E. reflexivity.
  - intros E. apply preprocess_blank. now apply has_ink_false.
Qed.

(** X2. [_preprocess_text] returns the empty text exactly on the texts
    made of whitespace only (the empty one among them), and on what is
    not a string; a text with another character stays a text with one. *)
Theorem preprocess_empty_iff :
  (forall s, _preprocess_text (PyStr s) = []
             <-> Forall (fun c => is_space c = true) s)
  /\ (forall s, has_ink (_preprocess_text (PyStr s)) = has_ink s)
  /\ _preprocess_text PyNone = []
  /\ (forall b, _preprocess_text (PyBool b) = [])
  /\ (forall z, _preprocess_text (PyInt z) = [])
  /\ (forall f, _preprocess_text (PyFloat f) = [])
  /\ (forall l, _preprocess_text (PyList l) = [])
  /\ (forall d, _preprocess_text (PyDict d) = []).
Proof.
  split; [|split; [exact preprocess_has_ink|repeat split]].
  intros s. rewrite <- has_ink_false. apply cleaned_nil_iff.
Qed.

(** ** [_parse_llm_response] *)

Lemma find_from_absent c s : forall i, ~ In c s -> find_from c i s = (-1)%Z.
Proof.
  induction s as [|x s IH]; intros i H; [reflexivity|]. simpl.
  destruct (N.eqb_spec x c) as [->|_]; [exfalso; apply H; now left|].
  apply IH. intros Hin. apply H. now right.
Qed.

Lemma find_from_first c pre post : forall i, ~ In c pre ->
  find_from c i (pre ++ c :: post) = (i + Z.of_nat (length pre))%Z.
Proof.
  induction pre as [|x pre IH]; intros i H; simpl.
  - rewrite N.eqb_refl. lia.
  - destruct (N.eqb_spec x c) as [->|_]; [exfalso; apply H; now left|].
    rewrite IH; [lia|]. intros Hin. apply H. now right.
Qed.

Lemma rfind_from_absent c s : forall i last,
  ~ In c s -> rfind_from c i last s = last.
Proof.
  induction s as [|x s IH]; intros i last H; [reflexivity|]. simpl.
  destruct (N.eqb_spec x c) as [->|_]; [exfalso; apply H; now left|].
  apply IH. intros Hin. apply H. now right.
Qed.

Lemma rfind_from_last c pre post : forall i last, ~ In c post ->
  rfind_from c i last (pre ++ c :: post) = (i + Z.of_nat (length pre))%Z.
Proof.
  induction pre as [|x pre IH]; intros i last H; simpl.
  - rewrite N.eqb_refl, rfind_from_absent by exact H. lia.
  - rewrite IH by exact H. lia.
Qed.

Lemma slice_nat {A} a b (s : list A) :
  slice (Z.of_nat a) (Z.of_nat b) s = skipn a (firstn b s).
Proof.
  unfold slice, slice_to.
  destruct (Z.leb_spec 0 (Z.of_nat b)); [|lia]. now rewrite !Nat2Z.id.
Qed.



Lemma strip_In c s : In c (strip s) -> In c s.
Proof.
  intros H. destruct (strip_decomp s) as (pre & post & Heq). rewrite Heq.
  apply in_or_app. right. apply in_or_app. now left.
Qed.

Section Parse.

Variable json_loads : pystr -> option pyval.

Local Abbreviation parse := (_parse_llm_response json_loads).

(** X3. A reply without content gives [AttributeError]; a content without
    an opening brace or without a closing brace gives the [ValueError]
    of the source, whatever [json.loads] would do. *)
Theorem parse_without_braces :
  parse None = Raise AttributeError
  /\ forall content,
       ~ In LBRACE content \/ ~ In RBRACE content ->
       parse (Some content) = Raise (ValueError NO_JSON).
Proof.
  split; [reflexivity|]. intros content H. unfold _parse_llm_response.
  destruct H as [H|H].
  - unfold find. rewrite find_from_absent; [reflexivity|].
    intros Hin. apply H. now apply strip_In.
  - unfold rfind. rewrite rfind_from_absent.
    + simpl. now rewrite orb_true_r.
    + intros Hin. apply H. now apply strip_In.
Qed.


(** X5. When the last closing brace of the trimmed content stands before
    its first opening brace, [json.loads] is given the empty text. *)
Theorem parse_braces_reversed content pre mid post :
  strip content = pre ++ RBRACE :: mid ++ LBRACE :: post ->
  ~ In LBRACE pre -> ~ In LBRACE mid -> ~ In RBRACE mid -> ~ In RBRACE post ->
  parse (Some content) =
  match json_loads [] with
  | Some v => Ret v
  | None => Raise JSONDecodeError
  end.
Proof.
  intros Heq Hpre Hmid Hmid' Hpost. unfold _parse_llm_response. rewrite Heq.
  assert (Hf : find LBRACE (pre ++ RBRACE :: mid ++ LBRACE :: post)
               = Z.of_nat (length (pre ++ RBRACE :: mid))).
  { unfold find.
    change (pre ++ RBRACE :: mid ++ LBRACE :: post)
      with (pre ++ (RBRACE :: mid) ++ LBRACE :: post).
    rewrite app_assoc, find_from_first; [lia|].
    intros Hin. apply in_app_or in Hin. destruct Hin as [Hin|[Hin|Hin]];
      [now apply Hpre|discriminate|now apply Hmid]. }
  assert (Hr : rfind RBRACE (pre ++ RBRACE :: mid ++ LBRACE :: post)
               = Z.of_nat (length pre)).
  { unfold rfind. rewrite rfind_from_last; [lia|].
    intros Hin. apply in_app_or in Hin. destruct Hin as [Hin|[Hin|Hin]];
      [now apply Hmid'|discriminate|now apply Hpost]. }
  rewrite Hf, Hr.
  destruct ((Z.of_nat (length (pre ++ RBRACE :: mid)) <? 0)
            || (Z.of_nat (length pre) + 1 <=? 0))%Z eqn:E.
  { apply orb_true_iff in E. destruct E as [E|E]; [apply Z.ltb_lt in E|apply Z.leb_le in E]; lia. }
  replace (Z.of_nat (length pre) + 1)%Z with (Z.of_nat (length pre + 1)) by lia.
  rewrite slice_nat, skipn_all2; [reflexivity|].
  etransitivity; [apply firstn_le_length|].
  rewrite length_app. simpl. lia.
Qed.

End Parse.

(** [parse_without_braces] on an answer in prose. *)
Lemma parse_without_braces_witness :
  _parse_llm_response sample_json (Some (py "I cannot find a product here."))
  = Raise (ValueError NO_JSON).
Proof.
  apply (proj2 (parse_without_braces sample_json)).
  left. vm_compute. intuition discriminate.
Defined.


(** [parse_braces_reversed] on a closing brace before an opening one. *)
Lemma parse_braces_reversed_witness :
  _parse_llm_response sample_json (Some (py "} or {"))
  = Raise JSONDecodeError.
Proof.
  apply (@parse_braces_reversed sample_json (py "} or {") [] (py " or ") []).
  - reflexivity.
  - intros [].
  - vm_compute. intuition discriminate.
  - vm_compute. intuition discriminate.
  - intros [].
Defined.

(** ** [_simple_extraction] and [_create_fallback_info] *)

Lemma split_on_no_sep c s : Forall (fun seg => ~ In c seg) (split_on c s).
Proof.
  induction s as [|x s IH]; simpl.
  - constructor; [intros []|constructor].
  - destruct (N.eqb_spec x c) as [->|Hx].
    + constructor; [intros []|exact IH].
    + destruct (split_on c s) as [|seg rest].
      * repeat constructor. intros [Hc|[]]. congruence.
      * inversion IH as [|? ? Hseg Hrest]. constructor; [|exact Hrest].
        intros [Hc|Hc]; [congruence|now apply Hseg].
Qed.

Lemma pipe_parts_no_pipe text p : In p (pipe_parts text) -> ~ In PIPE p.
Proof.
  unfold pipe_parts. rewrite filter_In, in_map_iff.
  intros [(q & <- & Hq) _] Hin. apply strip_In in Hin.
  pose proof (split_on_no_sep PIPE text) as H. rewrite Forall_forall in H.
  exact (H q Hq Hin).
Qed.

Lemma skipn_In {A} n (l : list A) x : In x (skipn n l) -> In x l.
Proof.
  intros H. rewrite <- (firstn_skipn n l). apply in_or_app. now right.
Qed.

Lemma scan_types_in table low :
  In (scan_types table low) (map fst table ++ [OTHER]).
Proof.
  induction table as [|[ty kws] table IH]; simpl; [now left|].
  destruct (existsb _ kws); [now left|now right].
Qed.

Section Fields.

Variable lower : pystr -> pystr.

Lemma name_of_no_pipe p : ~ In PIPE p -> ~ In PIPE (name_of lower p).
Proof.
  intros Hp. unfold name_of. destruct (starts_with FUER (lower p)); [|exact Hp].
  intros Hin. apply strip_In, skipn_In in Hin. now apply Hp.
Qed.

(** X6. Whatever the text, the structure the heuristic extractor returns
    has one of the five material types, the unit [ST] and no
    categorization; its characteristics are not empty and trimmed; and no
    pipe is left in its name or in a characteristic. *)
Theorem simple_extraction_fields text :
  let r := _simple_extraction lower text in
  In (material_type r) MATERIAL_TYPES
  /\ unit_of_measure r = ST
  /\ categorization r = []
  /\ Forall (fun c => c <> [] /\ stripped c /\ ~ In PIPE c) (characteristics r)
  /\ ~ In PIPE (product_name r).
Proof.
  intros r. subst r.
  destruct (pipe_parts text) as [|part0 rest] eqn:E.
  - rewrite (simple_extraction_nil lower _ E).
    split; [unfold MATERIAL_TYPES; apply in_or_app; right; now left|].
    simpl. repeat split; [constructor|intros []].
  - rewrite (simple_extraction_cons lower _ E).
    assert (Hin : forall p, In p (part0 :: rest) -> In p (pipe_parts text))
      by (intros p Hp; now rewrite E).
    split; [apply scan_types_in|]. simpl. repeat split.
    + apply Forall_forall. intros c Hc.
      assert (Hc' : In c (pipe_parts text)) by (apply Hin; now right).
      destruct (pipe_parts_In _ _ Hc') as [Hne Hs].
      repeat split; [exact Hne|apply Hs|apply Hs|].
      exact (pipe_parts_no_pipe _ _ Hc').
    + apply name_of_no_pipe. apply (pipe_parts_no_pipe text). apply Hin. now left.
Qed.

Lemma slice_to_prefix n (s : pystr) : is_prefix (slice_to n s) s.
Proof.
  unfold slice_to. destruct (0 <=? n)%Z;
    eexists; symmetry; apply firstn_skipn.
Qed.

Lemma firstn_prefix_mono n (a b : pystr) :
  is_prefix a b -> is_prefix (firstn n a) (firstn n b).
Proof.
  intros [t ->]. rewrite firstn_app. now eexists.
Qed.

Lemma is_prefix_trans a b c : is_prefix a b -> is_prefix b c -> is_prefix a c.
Proof.
  intros [t ->] [u ->]. exists (t ++ u). now rewrite app_assoc.
Qed.

Lemma slice_to_40_firstn (s : pystr) : slice_to 40 s = firstn 40 s.
Proof. reflexivity. Qed.

(** A short description cut at 40 from a text between the name and the
    name with the first characteristic. *)
Lemma cut_between name chars x :
  is_prefix name x -> is_prefix x (name_and_first name chars) ->
  is_prefix (firstn 40 name) (slice_to 40 x)
  /\ is_prefix (slice_to 40 x) (name_and_first name chars).
Proof.
  intros H1 H2. split.
  - rewrite slice_to_40_firstn. now apply firstn_prefix_mono.
  - exact (is_prefix_trans (slice_to_prefix 40 x) H2).
Qed.

Lemma is_prefix_refl a : is_prefix a a.
Proof. exists []. now rewrite app_nil_r. Qed.

Lemma is_prefix_app a b : is_prefix a (a ++ b).
Proof. now exists b. Qed.

(** X7. The short description of the heuristic extractor and of the
    fallback builder starts with the name (with its first 40 characters
    when the name is longer) and is itself a start of the name followed by
    a space and the first characteristic: nothing else is ever written
    into it. *)
Theorem short_description_content text :
  let s := _simple_extraction lower text in
  let f := _create_fallback_info lower text in
  is_prefix (firstn 40 (product_name s)) (short_description s)
  /\ is_prefix (short_description s)
               (name_and_first (product_name s) (characteristics s))
  /\ is_prefix (firstn 40 (product_name f)) (short_description f)
  /\ is_prefix (short_description f)
               (name_and_first (product_name f) (characteristics f)).
Proof.
  intros s f. subst s f. unfold _simple_extraction, _create_fallback_info.
  destruct (pipe_parts text) as [|part0 rest]; simpl.
  { repeat split; apply is_prefix_refl. }
  set (name := name_of lower part0).
  assert (Hs : is_prefix (firstn 40 name) (simple_short_desc name rest)
               /\ is_prefix (simple_short_desc name rest)
                            (name_and_first name rest)).
  { unfold simple_short_desc. apply cut_between.
    - destruct rest as [|char rest]; [apply is_prefix_refl|].
      destruct (_ <=? 40)%Z; [apply is_prefix_app|].
      destruct (_ >? 3)%Z; [apply is_prefix_app|apply is_prefix_refl].
    - destruct rest as [|char rest]; [apply is_prefix_refl|].
      destruct (_ <=? 40)%Z; [apply is_prefix_refl|].
      destruct (_ >? 3)%Z; [|apply is_prefix_app]. simpl.
      destruct (slice_to_prefix (40 - len name - 1) char) as [t Ht].
      exists t. rewrite Ht at 1. now rewrite <- app_assoc. }
  destruct Hs as [Hs1 Hs2]. split; [exact Hs1|]. split; [exact Hs2|].
  apply cut_between.
  - destruct rest as [|part1 rest]; [apply is_prefix_refl|].
    destruct (_ <=? 40)%Z; [apply is_prefix_app|apply is_prefix_refl].
  - destruct rest as [|part1 rest]; [apply is_prefix_refl|].
    destruct (_ <=? 40)%Z; [apply is_prefix_refl|apply is_prefix_app].
Qed.

(** X8. The fallback builder gives the name and the characteristics of the
    heuristic extractor, always the type ["other"], and the same short
    description unless the heuristic extractor has cut the first
    characteristic: that is, when there is no characteristic, or the
    first one fits whole, or the name has 36 characters or more. *)
Theorem fallback_agrees_with_heuristic text :
  let s := _simple_extraction lower text in
  let f := _create_fallback_info lower text in
  product_name f = product_name s
  /\ characteristics f = characteristics s
  /\ material_type f = OTHER
  /\ unit_of_measure f = ST
  /\ categorization f = []
  /\ (match characteristics s with
      | [] => True
      | char :: _ =>
        (len (product_name s) + 1 + len char <= 40)%Z
        \/ (36 <= len (product_name s))%Z
      end ->
      short_description f = short_description s).
Proof.
  intros s f. subst s f. unfold _simple_extraction, _create_fallback_info.
  destruct (pipe_parts text) as [|part0 rest]; simpl; [now repeat split|].
  repeat split. unfold simple_short_desc.
  destruct rest as [|part1 rest]; [reflexivity|]. intros H.
  replace (len (name_of lower part0) + len part1 + 1)%Z
    with (len (name_of lower part0) + 1 + len part1)%Z by lia.
  destruct (Z.leb_spec (len (name_of lower part0) + 1 + len part1) 40);
    [reflexivity|].
  destruct H as [H|H]; [lia|].
  destruct (Z.gtb_spec (40 - len (name_of lower part0) - 1) 3); [lia|reflexivity].
Qed.

End Fields.

(** [fallback_agrees_with_heuristic] on the text of the contactor, whose
    first characteristic fits whole. *)
Lemma fallback_agrees_with_heuristic_witness :
  short_description (_create_fallback_info lower_latin1 TEXT_SIEMENS)
  = short_description (_simple_extraction lower_latin1 TEXT_SIEMENS).
Proof.
  apply (proj2 (proj2 (proj2 (proj2 (proj2
    (fallback_agrees_with_heuristic lower_latin1 TEXT_SIEMENS)))))).
  left. vm_compute. discriminate.
Defined.

(** ** [_call_llm_for_extraction] and [_extract_with_fallback] *)

Section Calls.

Variable lower : pystr -> pystr.
Variable chat : nat -> pystr -> chat_outcome.
Variable json_loads : pystr -> option pyval.

Local Abbreviation simple := (_simple_extraction lower).
Local Abbreviation call_llm := (_call_llm_for_extraction chat json_loads).
Local Abbreviation extract := (_extract_with_fallback lower chat json_loads).
Local Abbreviation value := (attempt_value json_loads).

Lemma backoff_pause attempt o :
  backoff attempt o = if attempt <? 2 then pause attempt o else 0.
Proof.
  unfold backoff, pause. change (max_retries - 1) with 2.
  destruct (attempt <? 2); [|reflexivity].
  destruct o; unfold retry_delay; lia.
Qed.

(** X9. The time a call of the service sleeps: nothing when the first
    attempt succeeds, the pause of the first failure when the second
    does, the pauses of the first two failures otherwise; a pause is 2
    seconds, and 2 and 4 seconds after the first and the second
    connection error; nothing is slept after the third failure, so never
    more than 6 seconds in all. *)
Theorem backoff_schedule text st :
  let o k := chat (chat_calls st + k) (_create_llm_prompt text) in
  let st' := snd (call_llm text st) in
  slept st' =
    slept st
    + match value (o 0), value (o 1) with
      | Some _, _ => 0
      | None, Some _ => pause 0 (o 0)
      | None, None => pause 0 (o 0) + pause 1 (o 1)
      end
  /\ slept st' <= slept st + 6.
Proof.
  intros o st'.
  assert (Hp : forall k x, pause k x <= 2 * (k + 1)).
  { intros k x. unfold pause. destruct x; lia. }
  assert (Hmain : slept st' =
    slept st
    + match value (o 0), value (o 1) with
      | Some _, _ => 0
      | None, Some _ => pause 0 (o 0)
      | None, None => pause 0 (o 0) + pause 1 (o 1)
      end).
  { subst st' o. unfold _call_llm_for_extraction. simpl seq. cbv beta.
    rewrite Nat.add_0_r.
    pose proof (llm_loop_step chat json_loads 0 [1; 2] text st) as H0.
    cbv zeta in H0.
    destruct (value (chat (chat_calls st) (_create_llm_prompt text))) as [v0|].
    { rewrite H0. simpl. lia. }
    destruct H0 as (st1 & -> & _ & Hc1 & _ & _ & _ & Hs1).
    rewrite backoff_pause in Hs1. simpl in Hs1.
    pose proof (llm_loop_step chat json_loads 1 [2] text st1) as H1.
    cbv zeta in H1. rewrite Hc1 in H1.
    destruct (value (chat (chat_calls st + 1) (_create_llm_prompt text))) as [v1|].
    { rewrite H1. simpl. lia. }
    destruct H1 as (st2 & -> & _ & Hc2 & _ & _ & _ & Hs2).
    rewrite backoff_pause in Hs2. simpl in Hs2.
    pose proof (llm_loop_step chat json_loads 2 [] text st2) as H2.
    cbv zeta in H2.
    destruct (value (chat (chat_calls st2) (_create_llm_prompt text))) as [v2|].
    { rewrite H2. simpl. lia. }
    destruct H2 as (st3 & -> & _ & _ & _ & _ & _ & Hs3).
    rewrite backoff_pause in Hs3. simpl in Hs3.
    rewrite llm_loop_nil. simpl. lia. }
  split; [exact Hmain|]. rewrite Hmain.
  pose proof (Hp 0 (o 0)). pose proof (Hp 1 (o 1)).
  destruct (value (o 0)); [lia|]. destruct (value (o 1)); lia.
Qed.

(** What a call of the service does to the counters, and that it raises
    nothing but the error of the exhausted attempts. *)
Lemma call_llm_accounts text st :
  let st' := snd (call_llm text st) in
  answer_list st' = answer_list st
  /\ llm_fallbacks st' = llm_fallbacks st
  /\ chat_calls st < chat_calls st' <= chat_calls st + 3
  /\ llm_calls st' + chat_calls st <= chat_calls st' + llm_calls st
  /\ slept st' + 2 * chat_calls st <= 2 * chat_calls st' + slept st
  /\ match fst (call_llm text st) with
     | Ret _ => llm_errors st' = llm_errors st
     | Raise e =>
       e = RuntimeError ALL_FAILED
       /\ llm_errors st' = llm_errors st + 1
       /\ chat_calls st' = chat_calls st + 3
     end.
Proof.
  intros st'. subst st'. unfold _call_llm_for_extraction. simpl seq.
  assert (Hr : forall x, responded x <= 1) by (intros x; destruct x; simpl; lia).
  assert (Hb : forall k x, backoff k x <= 2 * (k + 1)).
  { intros k x. rewrite backoff_pause. unfold pause.
    destruct (k <? 2); destruct x; lia. }
  pose proof (llm_loop_step chat json_loads 0 [1; 2] text st) as H0.
  cbv zeta in H0.
  pose proof (Hr (chat (chat_calls st) (_create_llm_prompt text))) as Hr0.
  pose proof (Hb 0 (chat (chat_calls st) (_create_llm_prompt text))) as Hb0.
  destruct (value (chat (chat_calls st) (_create_llm_prompt text))) as [v0|].
  { rewrite H0. simpl. repeat split; lia. }
  destruct H0 as (st1 & -> & Ha1 & Hc1 & Hl1 & He1 & Hf1 & Hs1).
  pose proof (llm_loop_step chat json_loads 1 [2] text st1) as H1.
  cbv zeta in H1.
  pose proof (Hr (chat (chat_calls st1) (_create_llm_prompt text))) as Hr1.
  pose proof (Hb 1 (chat (chat_calls st1) (_create_llm_prompt text))) as Hb1.
  destruct (value (chat (chat_calls st1) (_create_llm_prompt text))) as [v1|].
  { rewrite H1. simpl. repeat split; try congruence; lia. }
  destruct H1 as (st2 & -> & Ha2 & Hc2 & Hl2 & He2 & Hf2 & Hs2).
  pose proof (llm_loop_step chat json_loads 2 [] text st2) as H2.
  cbv zeta in H2.
  pose proof (Hr (chat (chat_calls st2) (_create_llm_prompt text))) as Hr2.
  assert (Hb2 : backoff 2 (chat (chat_calls st2) (_create_llm_prompt text)) = 0)
    by (now rewrite backoff_pause).
  destruct (value (chat (chat_calls st2) (_create_llm_prompt text))) as [v2|].
  { rewrite H2. simpl. repeat split; try congruence; lia. }
  destruct H2 as (st3 & -> & Ha3 & Hc3 & Hl3 & He3 & Hf3 & Hs3).
  rewrite llm_loop_nil. simpl. repeat split; try congruence; lia.
Qed.

(** X10. The orchestrator never raises and stores no answer. It returns
    the heuristic structure and leaves the state as it is, or the value
    the service call returned, or the fallback structure; a fallback is
    counted exactly when the call has failed and counted its failure. *)
Theorem extract_outcomes text st :
  exists v st',
    extract text st = (Ret v, st')
    /\ answer_list st' = answer_list st
    /\ ((too_basic (simple text) = false
         /\ v = to_dict (simple text) /\ st' = st)
        \/ (too_basic (simple text) = true
            /\ call_llm text st = (Ret v, st')
            /\ llm_fallbacks st' = llm_fallbacks st
            /\ llm_errors st' = llm_errors st)
        \/ (too_basic (simple text) = true
            /\ exists st1,
                 call_llm text st = (Raise (RuntimeError ALL_FAILED), st1)
                 /\ v = to_dict (_create_fallback_info lower text)
                 /\ st' = incr_llm_fallbacks st1
                 /\ llm_errors st' = llm_errors st + 1
                 /\ llm_fallbacks st' = llm_fallbacks st + 1)).
Proof.
  rewrite extract_cases. destruct (too_basic (simple text)).
  - pose proof (call_llm_accounts text st) as H. cbv zeta in H.
    destruct (call_llm text st) as [[v|e] st1]; simpl in H.
    + exists v, st1. split; [reflexivity|]. split; [tauto|].
      right. left. repeat split; tauto.
    + destruct H as (Ha & Hf & _ & _ & _ & -> & He & _).
      eexists. eexists. split; [reflexivity|]. split; [exact Ha|].
      right. right. split; [reflexivity|]. exists st1.
      repeat split; simpl; lia.
  - exists (to_dict (simple text)), st. split; [reflexivity|].
    split; [reflexivity|]. left. now repeat split.
Qed.

Lemma accounts_refl st : accounts st st.
Proof. unfold accounts. repeat split; lia. Qed.

Lemma accounts_trans a b c : accounts a b -> accounts b c -> accounts a c.
Proof. unfold accounts. intros H1 H2. repeat split; lia. Qed.

(** The counters after the orchestrator, short of the answer of the row. *)
Lemma extract_accounts text st :
  let st' := snd (extract text st) in
  answer_list st' = answer_list st
  /\ llm_fallbacks st' + llm_errors st = llm_errors st' + llm_fallbacks st
  /\ llm_calls st' + chat_calls st <= chat_calls st' + llm_calls st
  /\ 3 * llm_errors st' + chat_calls st <= chat_calls st' + 3 * llm_errors st
  /\ chat_calls st <= chat_calls st' <= chat_calls st + 3
  /\ slept st' + 2 * chat_calls st <= 2 * chat_calls st' + slept st.
Proof.
  intros st'. subst st'. rewrite extract_cases.
  destruct (too_basic (simple text)); [|simpl; repeat split; lia].
  pose proof (call_llm_accounts text st) as H. cbv zeta in H.
  destruct (call_llm text st) as [[v|e] st1]; simpl in *.
  - destruct H as (Ha & Hf & Hc & Hl & Hs & He).
    repeat split; try lia. exact Ha.
  - destruct H as (Ha & Hf & Hc & Hl & Hs & _ & He & Hc3).
    repeat split; try lia. exact Ha.
Qed.

End Calls.

(** ** [_create_standardized_description] *)

Local Open Scope py_scope.

Lemma description_of_info p :
  _create_standardized_description (to_dict p)
  = Ret (PyStr (described p), to_dict p).
Proof.
  destruct p as [name chars mtype unit cat sd].
  unfold to_dict, _create_standardized_description, described, dict_get, getitem.
  cbn [product_name characteristics material_type unit_of_measure
       categorization short_description].
  change (dict_lookup K_short_description _) with (Some (PyStr sd)).
  set (info := [ (K_product_name, PyStr name);
                 (K_characteristics, PyList (map PyStr chars));
                 (K_material_type, PyStr mtype);
                 (K_unit_of_measure, PyStr unit);
                 (K_categorization, PyDict cat);
                 (K_short_description, PyStr sd) ]).
  assert (Hc : (r <~ fallback_construction info ;;
                desc <~ slice_val 40 (fst r) ;; Ret (desc, PyDict (snd r)))
               = Ret (PyStr (slice_to 40 (rebuilt name chars)), PyDict info)).
  { unfold fallback_construction, getitem, rebuilt, len.
    change (dict_lookup K_product_name info) with (Some (PyStr name)).
    change (dict_lookup K_characteristics info)
      with (Some (PyList (map PyStr chars))).
    destruct chars as [|char rest]; [reflexivity|].
    cbn [obind truthy map length Nat.eqb negb index0 py_len].
    destruct (_ <=? 40)%Z; [reflexivity|].
    destruct (_ >=? 3)%Z; reflexivity. }
  cbn [truthy obind py_len]. unfold len.
  destruct (negb (length sd =? 0)); [|exact Hc].
  cbn [andb]. destruct (_ <=? 40)%Z; [reflexivity|exact Hc].
Qed.

Lemma slice_to_40_cons (x : cp) l : slice_to 40 (x :: l) <> [].
Proof. rewrite slice_to_40_firstn. discriminate. Qed.

Lemma slice_to_40_nil (s : pystr) : slice_to 40 s = [] -> s = [].
Proof. destruct s; [reflexivity|]. intros H. now apply slice_to_40_cons in H. Qed.

Lemma simple_short_desc_nil name chars :
  simple_short_desc name chars = [] -> name = [] /\ chars = [].
Proof.
  unfold simple_short_desc. intros H. apply slice_to_40_nil in H.
  destruct chars as [|char rest]; [now split|exfalso].
  destruct (_ <=? 40)%Z eqn:E1.
  - destruct name; discriminate.
  - destruct (_ >? 3)%Z eqn:E2; [destruct name; discriminate|].
    subst name. discriminate.
Qed.

(** A structure whose short description is within 40 characters, and is
    empty only with an empty name and no characteristic, is described by
    its short description. *)
Lemma described_short p :
  length (short_description p) <= 40 ->
  (short_description p = [] -> product_name p = [] /\ characteristics p = []) ->
  described p = short_description p.
Proof.
  intros Hlen Hnil. unfold described, len.
  destruct (short_description p) as [|x sd] eqn:E.
  - destruct (Hnil eq_refl) as [-> ->]. reflexivity.
  - cbn [length Nat.eqb negb andb].
    destruct (Z.leb_spec (Z.of_nat (S (length sd))) 40); [reflexivity|].
    simpl in Hlen. lia.
Qed.

Section Described.

Variable lower : pystr -> pystr.

Lemma described_at_most_40 p : length (described p) <= 40.
Proof.
  unfold described.
  destruct (negb _ && (len (short_description p) <=? 40)%Z) eqn:E.
  - apply andb_true_iff in E. destruct E as [_ E].
    apply Z.leb_le in E. unfold len in E. lia.
  - apply slice_to_40.
Qed.

Lemma described_simple text :
  described (_simple_extraction lower text)
  = short_description (_simple_extraction lower text).
Proof.
  apply described_short.
  - unfold _simple_extraction.
    destruct (pipe_parts text) as [|part0 rest] eqn:E.
    + unfold _create_fallback_info. rewrite E. simpl. lia.
    + simpl. apply simple_short_desc_length.
  - unfold _simple_extraction.
    destruct (pipe_parts text) as [|part0 rest] eqn:E.
    + unfold _create_fallback_info. rewrite E. now split.
    + simpl. apply simple_short_desc_nil.
Qed.

(** X11. The description never raises on a structure an extractor has
    built, and leaves it as it is. For the heuristic extractor it is the
    short description, for every text; so it is for the fallback builder
    when the name is not empty or there is no characteristic. *)
Theorem description_of_extracted :
  (forall p, exists desc,
     _create_standardized_description (to_dict p) = Ret (PyStr desc, to_dict p)
     /\ length desc <= 40)
  /\ (forall text,
        let s := _simple_extraction lower text in
        _create_standardized_description (to_dict s)
        = Ret (PyStr (short_description s), to_dict s))
  /\ (forall text,
        let f := _create_fallback_info lower text in
        product_name f <> [] \/ characteristics f = [] ->
        _create_standardized_description (to_dict f)
        = Ret (PyStr (short_description f), to_dict f)).
Proof.
  split; [|split].
  - intros p. exists (described p).
    split; [apply description_of_info|apply described_at_most_40].
  - intros text s. subst s. now rewrite description_of_info, described_simple.
  - intros text f. subst f. intros H. rewrite description_of_info.
    rewrite described_short; [reflexivity| |].
    + unfold _create_fallback_info.
      destruct (pipe_parts text) as [|part0 rest]; simpl; [lia|apply slice_to_40].
    + revert H. unfold _create_fallback_info.
      destruct (pipe_parts text) as [|part0 rest]; simpl; [now split|].
      intros H Hnil. apply slice_to_40_nil in Hnil.
      destruct rest as [|part1 rest].
      * now split.
      * destruct H as [H|H]; [|discriminate]. exfalso.
        destruct (_ <=? 40)%Z; [destruct (name_of lower part0); [congruence|discriminate]|].
        congruence.
Qed.

End Described.

(** [description_of_extracted] on the fallback structure of the text of
    the water filter. *)
Lemma description_of_extracted_witness :
  _create_standardized_description
    (to_dict (_create_fallback_info lower_latin1 TEXT_APIC))
  = Ret (PyStr (py "APIC Wasserfilter FMA 9000"),
         to_dict (_create_fallback_info lower_latin1 TEXT_APIC)).
Proof.
  apply (proj2 (proj2 (description_of_extracted lower_latin1)) TEXT_APIC).
  left. vm_compute. discriminate.
Defined.

(** X12. A short description that is a string of 1 to 40 characters is
    the final description as it is, whatever else the structure holds or
    lacks, and the structure is left as it is. *)
Theorem short_description_verbatim info s :
  dict_lookup K_short_description info = Some (PyStr s) ->
  s <> [] -> length s <= 40 ->
  _create_standardized_description (PyDict info)
  = Ret (PyStr s, PyDict info).
Proof.
  intros Hs Hne Hlen.
  unfold _create_standardized_description, dict_get, getitem. rewrite Hs.
  destruct s as [|x s]; [congruence|]. cbn [truthy length Nat.eqb negb obind py_len].
  destruct (Z.leb_spec (Z.of_nat (S (length s))) 40); [reflexivity|].
  simpl in Hlen. lia.
Qed.

(** [short_description_verbatim] on a structure that holds nothing else. *)
Lemma short_description_verbatim_witness :
  _create_standardized_description
    (PyDict [(K_short_description, PyStr TEXT_PUMPE)])
  = Ret (PyStr TEXT_PUMPE, PyDict [(K_short_description, PyStr TEXT_PUMPE)]).
Proof.
  apply short_description_verbatim; [reflexivity|discriminate|].
  vm_compute. repeat constructor.
Defined.

Lemma description_rebuilds info :
  no_short_description info ->
  _create_standardized_description (PyDict info)
  = (r <~ fallback_construction info ;;
     desc <~ slice_val 40 (fst r) ;; Ret (desc, PyDict (snd r))).
Proof.
  intros [H|(s & Hs & Hlen)]; unfold _create_standardized_description.
  - now rewrite H.
  - unfold dict_get, getitem. rewrite Hs.
    destruct (truthy (PyStr s)); [|reflexivity].
    cbn [obind py_len].
    destruct (Z.leb_spec (Z.of_nat (length s)) 40); [lia|reflexivity].
Qed.

(** X13. What is not a dictionary gives [AttributeError]. Without a short
    description to use, a dictionary without [product_name] gives the
    [KeyError] of that key, and one with it but without
    [characteristics] the [KeyError] of this one. *)
Theorem description_missing_keys :
  _create_standardized_description PyNone = Raise AttributeError
  /\ (forall b, _create_standardized_description (PyBool b) = Raise AttributeError)
  /\ (forall z, _create_standardized_description (PyInt z) = Raise AttributeError)
  /\ (forall f, _create_standardized_description (PyFloat f) = Raise AttributeError)
  /\ (forall s, _create_standardized_description (PyStr s) = Raise AttributeError)
  /\ (forall l, _create_standardized_description (PyList l) = Raise AttributeError)
  /\ (forall info,
        no_short_description info ->
        (dict_lookup K_product_name info = None ->
         _create_standardized_description (PyDict info)
         = Raise (KeyError (PyStr K_product_name)))
        /\ (dict_lookup K_product_name info <> None ->
            dict_lookup K_characteristics info = None ->
            _create_standardized_description (PyDict info)
            = Raise (KeyError (PyStr K_characteristics)))).
Proof.
  repeat split; intros; rewrite description_rebuilds by assumption;
    unfold fallback_construction, getitem.
  - now rewrite H0.
  - destruct (dict_lookup K_product_name info); [|congruence].
    now rewrite H1.
Qed.

(** [description_missing_keys] on the empty object and on an object with a
    name only. *)
Lemma description_missing_keys_witness :
  _create_standardized_description (PyDict [])
  = Raise (KeyError (PyStr K_product_name))
  /\ _create_standardized_description
       (PyDict [(K_product_name, PyStr TEXT_PUMPE)])
     = Raise (KeyError (PyStr K_characteristics)).
Proof.
  split.
  - apply (proj2 (proj2 (proj2 (proj2 (proj2 (proj2
      description_missing_keys))))) []); [now left|reflexivity].
  - apply (proj2 (proj2 (proj2 (proj2 (proj2 (proj2
      description_missing_keys))))) [(K_product_name, PyStr TEXT_PUMPE)]);
      [now left|discriminate|reflexivity].
Defined.

Lemma fallback_construction_keeps info r :
  fallback_construction info = Ret r ->
  (forall l, dict_lookup K_product_name info <> Some (PyList l)) ->
  snd r = info.
Proof.
  unfold fallback_construction, getitem. intros H Hname.
  destruct (dict_lookup K_product_name info) as [desc|]; [|discriminate].
  assert (Hafter : forall desc', after_iadd desc desc' info = info).
  { intros desc'. destruct desc; try reflexivity. now destruct (Hname l). }
  cbn [obind] in H.
  destruct (dict_lookup K_characteristics info) as [chars|]; [|discriminate].
  cbn [obind] in H.
  destruct (truthy chars); [|now injection H as <-].
  destruct (index0 chars) as [char|]; [|discriminate]. cbn [obind] in H.
  destruct (py_len desc) as [len_desc|]; [|discriminate]. cbn [obind] in H.
  destruct (py_len char) as [len_char|]; [|discriminate]. cbn [obind] in H.
  destruct (len_desc + 1 + len_char <=? 40)%Z.
  - destruct (space_plus char) as [t|]; [|discriminate]. cbn [obind] in H.
    destruct (iadd desc t) as [desc'|]; [|discriminate]. cbn [obind] in H.
    injection H as <-. apply Hafter.
  - destruct (40 - len_desc - 1 >=? 3)%Z; [|now injection H as <-].
    destruct (slice_val (40 - len_desc - 1) char) as [part|]; [|discriminate].
    cbn [obind] in H.
    destruct (space_plus part) as [t|]; [|discriminate]. cbn [obind] in H.
    destruct (iadd desc t) as [desc'|]; [|discriminate]. cbn [obind] in H.
    injection H as <-. apply Hafter.
Qed.

(** X14. When the description is returned and [product_name] is not a
    list, the structure is left as it was: only a list under that key is
    ever changed. *)
Theorem description_keeps_info info d :
  _create_standardized_description (PyDict info) = Ret d ->
  (forall l, dict_lookup K_product_name info <> Some (PyList l)) ->
  snd d = PyDict info.
Proof.
  intros H Hname. unfold _create_standardized_description in H.
  assert (Hc : (r <~ fallback_construction info ;;
                desc <~ slice_val 40 (fst r) ;; Ret (desc, PyDict (snd r)))
               = Ret d -> snd d = PyDict info).
  { clear H.
    destruct (fallback_construction info) as [r|] eqn:E; [|discriminate].
    cbn [obind]. destruct (slice_val 40 (fst r)); [|discriminate].
    cbn [obind]. intros Hd. injection Hd as <-. simpl.
    now rewrite (@fallback_construction_keeps info r E Hname). }
  destruct (truthy (dict_get K_short_description info)); [|exact (Hc H)].
  destruct (getitem K_short_description info) as [desc|]; [|discriminate].
  cbn [obind] in H. destruct (py_len desc) as [n|]; [|discriminate].
  cbn [obind] in H. destruct (n <=? 40)%Z; [|exact (Hc H)].
  now injection H as <-.
Qed.

(** [description_keeps_info] on the long reply of the samples, and what
    happens to a name that is a list. *)
Lemma description_keeps_info_witness :
  (exists desc, _create_standardized_description LONG_INFO = Ret (desc, LONG_INFO))
  /\ _create_standardized_description
       (PyDict [ (K_product_name, PyList [PyStr (py "a")]);
                 (K_characteristics, PyList [PyStr (py "b")]) ])
     = Ret (PyList [PyStr (py "a"); PyStr (py " "); PyStr (py "b")],
            PyDict [ (K_product_name,
                      PyList [PyStr (py "a"); PyStr (py " "); PyStr (py "b")]);
                     (K_characteristics, PyList [PyStr (py "b")]) ]).
Proof.
  split; [|reflexivity].
  destruct (_create_standardized_description LONG_INFO) as [d|e] eqn:E;
    [|vm_compute in E; discriminate].
  destruct d as [desc info']. exists desc. f_equal. f_equal.
  refine (@description_keeps_info _ (desc, info') E _).
  intros l. vm_compute. discriminate.
Defined.

(** ** [process_materials] *)

Section Rows.

Variable lower : pystr -> pystr.
Variable chat : nat -> pystr -> chat_outcome.
Variable json_loads : pystr -> option pyval.
Variable exn_str : pyexn -> pystr.

Local Abbreviation simple := (_simple_extraction lower).
Local Abbreviation call_llm := (_call_llm_for_extraction chat json_loads).
Local Abbreviation extract := (_extract_with_fallback lower chat json_loads).
Local Abbreviation body := (row_body lower chat json_loads).
Local Abbreviation process := (process_row lower chat json_loads exn_str).
Local Abbreviation run := (process_materials lower chat json_loads exn_str).

(** What a row leaves: the state as it was for a text of whitespace, one
    more answer after the orchestrator otherwise. *)
Lemma process_row_effect (r : row) st :
  let text := row_text r in
  let cleaned := _preprocess_text (PyStr text) in
  if has_ink text
  then exists a,
         process r st = (Ret tt, add_answer a (snd (extract cleaned st)))
         /\ original_text a = text /\ cleaned_text a = cleaned
  else process r st = (Ret tt, st).
Proof.
  cbv zeta. unfold process_row, try_except.
  pose proof (cleaned_nil_iff (row_text r)) as Hnil.
  pose proof (row_body_cases lower chat json_loads (row_text r)
                (_preprocess_text (PyStr (row_text r))) st) as H.
  destruct (has_ink (row_text r)).
  - destruct (_preprocess_text (PyStr (row_text r))) as [|c cleaned'].
    + exfalso. pose proof (proj1 Hnil eq_refl) as Hx. discriminate Hx.
    + destruct H as (info & st1 & He & _ & ->). rewrite He. simpl snd.
      destruct (_create_standardized_description info) as [d|e];
        eexists; (split; [reflexivity|]); now split.
  - rewrite (proj2 Hnil eq_refl) in H |- *. now rewrite H.
Qed.

(** X15. A row of fewer than four cells, or whose fourth cell holds
    whitespace only, leaves no answer, calls nothing and counts nothing:
    the state is the one it found. *)
Theorem blank_rows_skipped (r : row) st :
  length r <= 3 \/ has_ink (nth 3 r []) = false ->
  process r st = (Ret tt, st).
Proof.
  intros H. pose proof (process_row_effect r st) as He. cbv zeta in He.
  assert (Hb : has_ink (row_text r) = false).
  { unfold row_text. destruct (_ <? _) eqn:E; [|reflexivity].
    apply Nat.ltb_lt in E. destruct H as [H|H]; [lia|exact H]. }
  now rewrite Hb in He.
Qed.

Lemma process_row_snd (r : row) st :
  let text := row_text r in
  let st' := snd (process r st) in
  if has_ink text
  then exists a,
         st' = add_answer a (snd (extract (_preprocess_text (PyStr text)) st))
         /\ original_text a = text
         /\ cleaned_text a = _preprocess_text (PyStr text)
  else st' = st.
Proof.
  intros text st'. subst st'.
  pose proof (process_row_effect r st) as H. cbv zeta in H. fold text in H.
  destruct (has_ink text).
  - destruct H as (a & -> & H1 & H2). now exists a.
  - now rewrite H.
Qed.



Lemma process_row_accounts (r : row) st : accounts st (snd (process r st)).
Proof.
  pose proof (process_row_snd r st) as H. cbv zeta in H.
  destruct (has_ink (row_text r)); [|rewrite H; apply accounts_refl].
  destruct H as (a & -> & _).
  pose proof (extract_accounts lower chat json_loads
                (_preprocess_text (PyStr (row_text r))) st) as He.
  cbv zeta in He. destruct He as (Ha & Hf & Hl & He & Hc & Hs).
  unfold accounts, add_answer.
  cbn [answer_list llm_calls llm_errors llm_fallbacks chat_calls slept].
  rewrite length_app, Ha. cbn [length].
  repeat split; lia.
Qed.

Lemma run_accounts (df : list row) : forall st, accounts st (snd (run df st)).
Proof.
  induction df as [|r rest IH]; intros st; [apply accounts_refl|].
  rewrite process_materials_cons.
  exact (accounts_trans (process_row_accounts r st) (IH _)).
Qed.

(** X17. At the end of a run the fallbacks counted are the failures
    counted; no more messages were received than calls made; each failure
    stands for three calls; at most three calls were made for each
    answer; and at most two seconds were slept for each call. *)
Theorem run_counters (df : list row) :
  let st := snd (run df init) in
  llm_fallbacks st = llm_errors st
  /\ llm_calls st <= chat_calls st
  /\ 3 * llm_errors st <= chat_calls st
  /\ chat_calls st <= 3 * length (answer_list st)
  /\ slept st <= 2 * chat_calls st.
Proof.
  intros st. pose proof (run_accounts df init) as H. fold st in H.
  unfold accounts in H. simpl in H. repeat split; lia.
Qed.



End Rows.

(** [blank_rows_skipped] on a row of two cells and on a row whose fourth
    cell is three spaces. *)
Lemma blank_rows_skipped_witness :
  process_row lower_latin1 chat_down sample_json sample_exn_str row_short init
  = (Ret tt, init)
  /\ process_row lower_latin1 chat_down sample_json sample_exn_str row_blank init
     = (Ret tt, init).
Proof.
  split.
  - apply blank_rows_skipped. left. vm_compute. repeat constructor.
  - apply blank_rows_skipped. right. reflexivity.
Defined.



(** ** [_create_llm_prompt] *)

(** X20. The prompt is the same text around every description: the
    description stands as it is, with nothing escaped, between
    [Description: ] and the empty line before [Rules:]; so two prompts
    are equal only for the same description. *)
Theorem prompt_embeds_text :
  (exists before after, forall text,
     _create_llm_prompt text
     = before ++ py "Description: " ++ text
       ++ [10%N; 10%N] ++ py "Rules:" ++ after)
  /\ (forall text text',
        _create_llm_prompt text = _create_llm_prompt text' -> text = text').
Proof.
  split.
  - exists (firstn (length prompt_head - 13) prompt_head), (skipn 8 prompt_tail).
    intros text. unfold _create_llm_prompt.
    assert (Hh : prompt_head
                 = firstn (length prompt_head - 13) prompt_head
                   ++ py "Description: ") by reflexivity.
    assert (Ht : prompt_tail
                 = [10%N; 10%N] ++ py "Rules:" ++ skipn 8 prompt_tail)
      by reflexivity.
    rewrite Ht at 1. rewrite Hh at 1. now rewrite <- !app_assoc.
  - intros text text' H. unfold _create_llm_prompt in H.
    apply app_inv_head in H. now apply app_inv_tail in H.
Qed.
